(** * podcast_ai.py: the episode pipeline, its ledger and its feed

    A shallow embedding of [src/podcast_ai.py].  Python strings are
    [string]; the module-level list [podcast_episodes] is a field of the
    program state; dictionaries with a fixed set of keys are records.

    Calls that leave the module for a collaborator (feedparser, the random
    source, ElevenLabs, Google Cloud Storage, feedgen) are answered by a
    [World]: the n-th call of a run is given the world's n-th answer, which
    is either a value or a raised exception.  The calls that matter to the
    outside (feed requests, synthesis, saving, uploads, the feed file) are
    recorded in a trace, and the state holds the paths of the local files
    that exist: saving the audio and writing the feed add one, an upload
    opens one and raises when it is not there.  The wall clock is answered
    by the world too and never raises.  Logging has no effect on any value the program computes
    and is left out; [os.path.join], string formatting and slicing are
    total functions on strings.

    One check of feedgen is part of the embedding, because it decides what
    [generate_rss_feed] does on every input: its setters [lastBuildDate]
    and [pubDate] refuse a datetime without time zone with a [ValueError],
    and every datetime of this program ([datetime.now()] without argument,
    [fromisoformat] of a text without offset) is one.

    [try ... except Exception] is [try_except]: what the body did to the
    state before it raised stays done.  With these conventions the only
    call of [generate_podcast] that is outside every inner [try] and may
    raise is the sampling of line 94; the only calls inside the [try] of
    [generate_conversation] are those to the random source. *)

From Stdlib Require Import Ascii String Arith NArith Lia.
From stdpp Require Import list strings pretty.


(** ** Strings *)

(** The newline character of Python's ["\n"]. *)
Definition NL : string := String (ascii_of_nat 10) EmptyString.

(** [s[:n]]: the first [n] characters, all of [s] when it is shorter. *)
Definition str_upto (n : nat) (s : string) : string := substring 0 n s.

(** Python truthiness of a string. *)
Definition nonempty (s : string) : bool :=
  match s with EmptyString => false | String _ _ => true end.

(** Truthiness of a value that is [None] or a string ([os.getenv]). *)
Definition truthy (o : option string) : bool :=
  match o with Some s => nonempty s | None => false end.

Definition starts_with_slash (s : string) : bool :=
  match s with String c _ => Ascii.eqb c "/"%char | EmptyString => false end.

Fixpoint ends_with_slash (s : string) : bool :=
  match s with
  | EmptyString => false
  | String c EmptyString => Ascii.eqb c "/"%char
  | String _ rest => ends_with_slash rest
  end.

(** [os.path.join(a, b)] of posixpath, for two components. *)
Definition path_join (a b : string) : string :=
  if starts_with_slash b then b
  else if negb (nonempty a) || ends_with_slash a then a +:+ b
  else a +:+ "/" +:+ b.

(** ** Exceptions and results *)

(** Every exception the program meets is an instance of Python's
    [Exception]; FastAPI's [HTTPException] is one of them. *)
Inductive exn : Type :=
| PyError (class message : string)
| HTTPException (status_code : nat) (detail : string).

Inductive result (A : Type) : Type :=
| Ok (a : A)
| Raise (e : exn).
Arguments Ok {A} a.
Arguments Raise {A} e.

(** ** Dates and times *)

Module Datetime.

(** The fields of a [datetime] object, as binary naturals. *)
Record datetime : Type := {
  year : N; month : N; day : N;
  hour : N; minute : N; second : N; microsecond : N
}.

Definition digit_char (d : N) : ascii := ascii_of_N (48 + d).

Definition digit_val (c : ascii) : option N :=
  let n := N_of_ascii c in
  if (48 <=? n)%N && (n <=? 57)%N then Some (n - 48)%N else None.

(** [v] printed in exactly [width] decimal digits, zero padded ([%0wd]
    for a value below [10 ^ width]). *)
Fixpoint dec (width : nat) (v : N) : string :=
  match width with
  | 0 => EmptyString
  | S w => String (digit_char ((v / 10 ^ N.of_nat w) mod 10)) (dec w v)
  end.

(** [strftime("%Y%m%d_%H%M%S")]. *)
Definition strftime (d : datetime) : string :=
  dec 4 (year d) +:+ dec 2 (month d) +:+ dec 2 (day d) +:+ "_" +:+
  dec 2 (hour d) +:+ dec 2 (minute d) +:+ dec 2 (second d).

(** [datetime.isoformat()] of a naive datetime: the fraction is printed
    only when the microsecond is not zero. *)
Definition isoformat (d : datetime) : string :=
  dec 4 (year d) +:+ "-" +:+ dec 2 (month d) +:+ "-" +:+ dec 2 (day d) +:+ "T" +:+
  dec 2 (hour d) +:+ ":" +:+ dec 2 (minute d) +:+ ":" +:+ dec 2 (second d) +:+
  (if (microsecond d =? 0)%N then EmptyString else "." +:+ dec 6 (microsecond d)).

Definition is_leap (y : N) : bool :=
  ((y mod 4 =? 0)%N && negb (y mod 100 =? 0)%N) || (y mod 400 =? 0)%N.

Definition days_in_month (y m : N) : N :=
  if (m =? 2)%N then (if is_leap y then 29 else 28)
  else if (m =? 4)%N || (m =? 6)%N || (m =? 9)%N || (m =? 11)%N then 30
  else 31.

(** The field ranges [datetime] enforces. *)
Definition valid (d : datetime) : bool :=
  (1 <=? year d)%N && (year d <=? 9999)%N &&
  (1 <=? month d)%N && (month d <=? 12)%N &&
  (1 <=? day d)%N && (day d <=? days_in_month (year d) (month d))%N &&
  (hour d <? 24)%N && (minute d <? 60)%N && (second d <? 60)%N &&
  (microsecond d <? 1000000)%N.

(** Reads [width] decimal digits, most significant first. *)
Fixpoint digits (width : nat) (acc : N) (s : string) : option (N * string) :=
  match width with
  | 0 => Some (acc, s)
  | S w =>
      match s with
      | EmptyString => None
      | String c rest =>
          match digit_val c with
          | Some d => digits w (acc * 10 + d)%N rest
          | None => None
          end
      end
  end.

Definition expect (c : ascii) (s : string) : option string :=
  match s with
  | String c' rest => if Ascii.eqb c c' then Some rest else None
  | EmptyString => None
  end.

Definition parse_fraction (s : string) : option N :=
  match s with
  | EmptyString => Some 0%N
  | String c rest =>
      if Ascii.eqb c "."%char
      then match digits 6 0%N rest with
           | Some (us, EmptyString) => Some us
           | _ => None
           end
      else None
  end.

Definition parse_iso (s : string) : option datetime :=
  '(y, s) ← digits 4 0%N s; s ← expect "-"%char s;
  '(mo, s) ← digits 2 0%N s; s ← expect "-"%char s;
  '(d, s) ← digits 2 0%N s; s ← expect "T"%char s;
  '(h, s) ← digits 2 0%N s; s ← expect ":"%char s;
  '(mi, s) ← digits 2 0%N s; s ← expect ":"%char s;
  '(sec, s) ← digits 2 0%N s;
  us ← parse_fraction s;
  Some {| year := y; month := mo; day := d;
          hour := h; minute := mi; second := sec; microsecond := us |}.

(** [datetime.fromisoformat] on the two shapes [isoformat] prints for a
    naive datetime; any other text, and any field out of range, is a
    [ValueError].  (The library accepts further ISO-8601 shapes, none of
    which this program ever stores.) *)
Definition fromisoformat (s : string) : result datetime :=
  match parse_iso s with
  | Some d =>
      if valid d then Ok d
      else Raise (PyError "ValueError" "field out of range")
  | None => Raise (PyError "ValueError" ("Invalid isoformat string: " +:+ s))
  end.

(** The time zone of a datetime.  [datetime.now()] is called without a
    time zone throughout, and [fromisoformat] reads the texts [isoformat]
    printed for such datetimes, which carry no offset: every datetime of
    the program is naive, its [tzinfo] is [None]. *)
Definition tzinfo (d : datetime) : option string := None.

End Datetime.

Export Datetime.

(** ** Data *)

(** A news item, the dictionary built at lines 79-84. *)
Record Topic : Type := {
  title : string; link : string; summary : string; source : string
}.

(** An entry of a parsed feed.  An attribute the feed does not carry is
    [None]: reading it raises [AttributeError], [entry.get] falls back to
    its default. *)
Record Entry : Type := {
  entry_title : option string;
  entry_link : option string;
  entry_summary : option string
}.

(** An element of [AI_GUESTS]. *)
Record Guest : Type := { name : string; style : string; intro : string }.

(** [episode_data], lines 252-258: what the ledger stores. *)
Record Episode : Type := {
  podcast_text : string;
  audio_file : string;
  audio_url : string;
  timestamp : string;
  created_at : string
}.

(** The dictionary [generate_podcast] and [get_latest_episode] return
    (the fields of [PodcastResponse]). *)
Record Response : Type := {
  resp_podcast_text : string;
  resp_audio_file : string;
  resp_created_at : string
}.

(** What [generate_rss_feed] sets on a feedgen entry, lines 197-203. *)
Record FeedEntry : Type := {
  fe_id : string;
  fe_title : string;
  fe_link : string;
  fe_description : string;
  fe_enclosure : string * nat * string;
  fe_pubDate : datetime
}.

(** What it sets on the feed generator, lines 186-194, with the entries in
    the order of the [add_entry] calls. *)
Record Feed : Type := {
  fg_id : string;
  fg_title : string;
  fg_author : string * string;
  fg_link_alternate : string;
  fg_link_self : string;
  fg_description : string;
  fg_language : string;
  fg_lastBuildDate : datetime;
  fg_entries : list FeedEntry
}.

(** The environment variables read at lines 32-43.  [os.getenv] without a
    default is [None] when the variable is unset. *)
Record Config : Type := {
  ELEVENLABS_API_KEY : option string;
  PODCAST_DIR : string;
  GCS_BUCKET_NAME : option string;
  VOICE_NAME : string;
  RSS_FEED_PATH : string;
  PODCAST_TITLE : string;
  PODCAST_AUTHOR : string;
  PODCAST_EMAIL : string;
  PODCAST_DESCRIPTION : string;
  PODCAST_BASE_URL : string
}.

(** ** The world and the program state *)

(** What a run does that can be seen from outside: a call made over the
    network ([FeedParse], [Synthesize], [Upload]), whatever its outcome, or
    a local file written ([SaveAudio], [WriteFeed]). *)
Inductive Event : Type :=
| FeedParse (url : string)
| Synthesize (text voice : string)
| SaveAudio (filename : string)
| Upload (bucket source_file_name destination_blob_name : string)
| WriteFeed (path : string) (doc : Feed).

(** The answers of the collaborators, by the number of the call. *)
Record World : Type := {
  feedparser_parse : nat -> string -> result (list Entry);
  random_answer : nat -> result nat;
  clock : nat -> datetime;
  elevenlabs_generate : nat -> string -> string -> result string;
  elevenlabs_save : nat -> string -> string -> result unit;
  (** client, bucket, blob, [upload_from_filename] of a file that exists,
      [make_public] and [public_url] together: the public URL, or the
      first exception. *)
  storage_upload : nat -> string -> string -> string -> result string;
  (** [rss_file] on a feed whose setters have accepted their values: the
      file is written, or the first exception. *)
  feedgen_rss_file : nat -> string -> Feed -> result unit
}.

(** [files] are the paths of the local files that exist. *)
Record State : Type := {
  ticks : nat;
  podcast_episodes : list Episode;
  trace : list Event;
  files : list string
}.

(** ** Computations: state and exceptions *)

Definition M (A : Type) : Type := State -> result A * State.

Definition ret {A} (a : A) : M A := fun st => (Ok a, st).

Definition raise {A} (e : exn) : M A := fun st => (Raise e, st).

Definition bind {A B} (m : M A) (k : A -> M B) : M B :=
  fun st =>
    match m st with
    | (Ok a, st') => k a st'
    | (Raise e, st') => (Raise e, st')
    end.

(** [try: body except Exception as e: handler]: what the body did to the
    state before raising stays done. *)
Definition try_except {A} (body : M A) (handler : exn -> M A) : M A :=
  fun st =>
    match body st with
    | (Ok a, st') => (Ok a, st')
    | (Raise e, st') => handler e st'
    end.

Declare Scope prog_scope.
Delimit Scope prog_scope with prog.
Notation "x <- c1 ;; c2" := (bind c1 (fun x => c2))
  (at level 100, c1 at next level, right associativity) : prog_scope.
Notation "c1 ;; c2" := (bind c1 (fun _ => c2))
  (at level 100, right associativity) : prog_scope.
Local Open Scope prog_scope.

(** The state after one more call to a collaborator. *)
Definition called (ev : option Event) (st : State) : State :=
  {| ticks := S (ticks st);
     podcast_episodes := podcast_episodes st;
     trace := match ev with Some e => trace st ++ [e] | None => trace st end;
     files := files st |}.

(** One call to a collaborator: the world's next answer is consumed and,
    for a network call, the call is recorded. *)
Definition call {A} (ev : option Event) (answer : nat -> result A) : M A :=
  fun st => (answer (ticks st), called ev st).

(** [datetime.now()]. *)
Definition datetime_now (W : World) : M datetime :=
  call None (fun n => Ok (clock W n)).

Definition get_episodes : M (list Episode) :=
  fun st => (Ok (podcast_episodes st), st).

Definition set_episodes (l : list Episode) : M unit :=
  fun st =>
    (Ok tt,
     {| ticks := ticks st; podcast_episodes := l; trace := trace st; files := files st |}).

(** A local file has been written. *)
Definition write_file (ev : Event) (path : string) : M unit :=
  fun st =>
    (Ok tt,
     {| ticks := ticks st; podcast_episodes := podcast_episodes st;
        trace := trace st ++ [ev]; files := path :: files st |}).

Definition file_exists (path : string) (st : State) : bool :=
  bool_decide (path ∈ files st).

(** Opening a local file for reading raises when there is none. *)
Definition open_file (path : string) : M unit :=
  fun st =>
    if file_exists path st then (Ok tt, st)
    else (Raise (PyError "FileNotFoundError" path), st).

Definition lift_result {A} (r : result A) : M A :=
  fun st => (r, st).

(** A computation that returns whatever the state and the world. *)
Definition never_raises {A} (m : M A) : Prop :=
  forall st, exists a, fst (m st) = Ok a.

(** A computation that leaves [podcast_episodes] as it was. *)
Definition keeps_ledger {A} (m : M A) : Prop :=
  forall st, podcast_episodes (snd (m st)) = podcast_episodes st.

(** A computation that calls no recorded collaborator and writes no file. *)
Definition silent {A} (m : M A) : Prop :=
  forall st, trace (snd (m st)) = trace st /\ files (snd (m st)) = files st.

(** [str(e)]: the message; for an [HTTPException], Starlette's
    [__str__], the status code and the detail. *)
Definition str_exn (e : exn) : string :=
  match e with
  | PyError _ message => message
  | HTTPException status_code detail => pretty status_code +:+ ": " +:+ detail
  end.

(** feedgen's setters for a date, [lastBuildDate] (line 194) and [pubDate]
    (line 203): a datetime object is taken as it is when it carries a time
    zone, [if value.tzinfo is None: raise ValueError(...)] otherwise. *)
Definition feedgen_date (d : datetime) : result datetime :=
  match tzinfo d with
  | Some _ => Ok d
  | None => Raise (PyError "ValueError" "Datetime object has no timezone info")
  end.

(** ** The program *)

Section Program.

Variable cfg : Config.
Variable W : World.

(** *** The random source *)

Definition randbelow (n : nat) : M nat :=
  r <- call None (random_answer W) ;; ret (r mod n).

(** [random.choice(seq)]. *)
Definition random_choice {A} (seq : list A) : M A :=
  match seq with
  | [] => raise (PyError "IndexError" "Cannot choose from an empty sequence")
  | _ =>
      j <- randbelow (length seq) ;;
      match seq !! j with
      | Some x => ret x
      | None => raise (PyError "IndexError" "list index out of range")
      end
  end.

(** The selection loop of [random.sample] for a population of at most 21
    items (here: at most 9).  [pool] is the part of the copy still
    eligible; the chosen slot is refilled with the last eligible item. *)
Fixpoint sample_loop {A} (k : nat) (pool selected : list A) : M (list A) :=
  match k with
  | 0 => ret selected
  | S k' =>
      j <- randbelow (length pool) ;;
      match pool !! j, last pool with
      | Some x, Some y =>
          sample_loop k' (take (length pool - 1) (<[j := y]> pool)) (selected ++ [x])
      | _, _ => raise (PyError "IndexError" "list index out of range")
      end
  end.

(** [random.sample(population, k)]. *)
Definition random_sample {A} (population : list A) (k : nat) : M (list A) :=
  if length population <? k
  then raise (PyError "ValueError" "Sample larger than population or is negative")
  else sample_loop k population [].

(** *** fetch_tech_news, lines 66-96 *)

Definition news_sources : list string :=
  [ "https://news.ycombinator.com/rss";
    "https://www.theverge.com/rss/index.xml";
    "https://www.wired.com/feed/rss" ].

Definition fallback_topic : Topic :=
  {| title := "No fresh news found.";
     link := "";
     summary := "Backup topic: Recent advancements in AI technology";
     source := "fallback" |}.

(** The dictionary of lines 79-84: [entry.title] and [entry.link] raise
    when the feed lacks them. *)
Definition topic_of_entry (src : string) (entry : Entry) : result Topic :=
  match entry_title entry with
  | None => Raise (PyError "AttributeError" "object has no attribute 'title'")
  | Some t =>
      match entry_link entry with
      | None => Raise (PyError "AttributeError" "object has no attribute 'link'")
      | Some l =>
          Ok {| title := t; link := l;
                summary := default "No summary available" (entry_summary entry);
                source := src |}
      end
  end.

(** The loop of lines 78-85 over the entries of one feed.  [news_list] is
    appended to in place, so what was appended before an entry raises
    stays in the list when the handler of line 86 takes over. *)
Fixpoint append_entries (src : string) (entries : list Entry)
    (news_list : list Topic) : list Topic :=
  match entries with
  | [] => news_list
  | entry :: rest =>
      match topic_of_entry src entry with
      | Ok t => append_entries src rest (news_list ++ [t])
      | Raise _ => news_list
      end
  end.

(** Lines 76-88: one source, with its own handler. *)
Definition fetch_source (src : string) (news_list : list Topic) : M (list Topic) :=
  try_except
    (entries <- call (Some (FeedParse src)) (fun n => feedparser_parse W n src) ;;
     ret (append_entries src (take 3 entries) news_list))
    (fun _ => ret news_list).

Fixpoint gather_loop (sources : list string) (news_list : list Topic)
    : M (list Topic) :=
  match sources with
  | [] => ret news_list
  | src :: rest => l <- fetch_source src news_list ;; gather_loop rest l
  end.

(** Lines 72-90: the aggregate.  The handler of every source is total, so
    the outer handler of line 89 has nothing to catch. *)
Definition gather_news : M (list Topic) := gather_loop news_sources [].

(** Lines 93-96. *)
Definition select_news (news_list : list Topic) : M (list Topic) :=
  l <- (if 5 <? length news_list then random_sample news_list 5 else ret news_list) ;;
  ret (match l with [] => [fallback_topic] | _ => l end).

Definition fetch_tech_news : M (list Topic) :=
  news_list <- gather_news ;; select_news news_list.

(** *** generate_conversation, lines 99-135 *)

Definition AI_GUESTS : list Guest :=
  [ {| name := "Dr. Nova"; style := "formal";
       intro := "As an AI researcher, I can tell you..." |};
    {| name := "Tech Rebel"; style := "casual";
       intro := "Look, the way I see it..." |};
    {| name := "ByteBot 3000"; style := "humor";
       intro := "Oh great, another AI debate! Let's dive in..." |};
    {| name := "LogicCore"; style := "logical";
       intro := "Pure logic dictates the outcome." |};
    {| name := "Glitch"; style := "chaotic";
       intro := "Binary chaos detected, let's analyze..." |} ].

Definition host_intros : list string :=
  [ "Let's get your thoughts on this.";
    "What's your take on this story?";
    "I'd love to hear your perspective on this.";
    "Any insights to share about this news?";
    "How do you interpret this development?" ].

Definition host_responses : list string :=
  [ "That's fascinating.";
    "I hadn't thought of it that way.";
    "Interesting perspective!";
    "You make a good point there.";
    "That's quite insightful." ].

Definition sectors : list string :=
  [ "healthcare"; "education"; "finance"; "entertainment"; "transportation" ].

(** The text of lines 121-130 once the four choices are made. *)
Definition conversation_text (topic : Topic) (guest : Guest)
    (host_intro host_response sector : string) : string :=
  NL +:+ "Host: Let's talk about " +:+ title topic +:+ ". " +:+ host_intro +:+ NL +:+ NL +:+
  name guest +:+ " (" +:+ style guest +:+ "): " +:+ intro guest +:+ " " +:+
  "I was reading about " +:+ title topic +:+ ". " +:+
  "The article mentions " +:+ str_upto 100 (summary topic) +:+ "... " +:+
  "This is particularly interesting because it highlights the rapid pace of technological change." +:+ NL +:+ NL +:+
  "Host: " +:+ host_response +:+ " What implications do you think this has for the future?" +:+ NL +:+ NL +:+
  name guest +:+ ": Well, if we extrapolate from current trends, " +:+
  "we might see significant changes in how we interact with technology. " +:+
  "This development could potentially impact various sectors including " +:+
  sector +:+ "." +:+ NL.

(** The body of the [try], lines 101-132. *)
Definition render_conversation (topic : Topic) : M string :=
  guest <- random_choice AI_GUESTS ;;
  host_intro <- random_choice host_intros ;;
  host_response <- random_choice host_responses ;;
  sector <- random_choice sectors ;;
  ret (conversation_text topic guest host_intro host_response sector).

(** The sentence of line 135. *)
Definition fallback_conversation (topic : Topic) : string :=
  NL +:+ "Podcast Topic: " +:+ title topic +:+ NL +:+
  "Guest: Let me share my thoughts on this topic. " +:+
  str_upto 100 (summary topic) +:+ "...".

Definition generate_conversation (topic : Topic) : M string :=
  try_except (render_conversation topic)
             (fun _ => ret (fallback_conversation topic)).

(** *** text_to_speech, lines 138-158 *)

Definition text_to_speech (text : string) (filename : option string) : M string :=
  match ELEVENLABS_API_KEY cfg with
  | Some api_key =>
      if nonempty api_key then
        filename <-
          match filename with
          | Some f => ret f
          | None =>
              now <- datetime_now W ;;
              ret (path_join (PODCAST_DIR cfg)
                     ("podcast_episode_" +:+ strftime now +:+ ".mp3"))
          end ;;
        try_except
          (audio <- call (Some (Synthesize text (VOICE_NAME cfg)))
                         (fun n => elevenlabs_generate W n text (VOICE_NAME cfg)) ;;
           call None (fun n => elevenlabs_save W n audio filename) ;;
           write_file (SaveAudio filename) filename ;;
           ret filename)
          (fun _ => ret "audio_generation_failed.mp3")
      else ret "audio_generation_skipped.mp3"
  | None => ret "audio_generation_skipped.mp3"
  end.

(** *** upload_to_gcs, lines 161-181 *)

Definition upload_to_gcs (bucket_name : option string)
    (source_file_name destination_blob_name : string) : M (option string) :=
  match bucket_name with
  | Some bucket =>
      if nonempty bucket then
        try_except
          (open_file source_file_name ;;
           public_url <-
             call (Some (Upload bucket source_file_name destination_blob_name))
                  (fun n => storage_upload W n bucket source_file_name
                              destination_blob_name) ;;
           ret (Some public_url))
          (fun _ => ret None)
      else ret None
  | None => ret None
  end.

(** *** generate_rss_feed, lines 184-217 *)

(** The values lines 198-202 hand to the setters of an entry, with the
    date [pubDate] accepted. *)
Definition entry_fields (episode : Episode) (pubDate : datetime) : FeedEntry :=
  {| fe_id := audio_url episode;
     fe_title := "Episode " +:+ timestamp episode;
     fe_link := audio_url episode;
     fe_description := str_upto 500 (podcast_text episode) +:+ "...";
     fe_enclosure := (audio_url episode, 0, "audio/mpeg");
     fe_pubDate := pubDate |}.

(** Lines 197-203 for one episode: [datetime.fromisoformat] may raise, and
    so may [fe.pubDate] on what it returned. *)
Definition feed_entry (episode : Episode) : result FeedEntry :=
  match fromisoformat (created_at episode) with
  | Ok d =>
      match feedgen_date d with
      | Ok pubDate => Ok (entry_fields episode pubDate)
      | Raise e => Raise e
      end
  | Raise e => Raise e
  end.

(** The loop of lines 196-203: one [add_entry] per episode, in order; the
    first exception ends it. *)
Fixpoint feed_entries (episodes : list Episode) : result (list FeedEntry) :=
  match episodes with
  | [] => Ok []
  | episode :: rest =>
      match feed_entry episode with
      | Ok fe =>
          match feed_entries rest with
          | Ok fes => Ok (fe :: fes)
          | Raise e => Raise e
          end
      | Raise e => Raise e
      end
  end.

(** Lines 186-203: the feed as set up before it is written.  The setters
    of lines 187-193 take any string; [fg.lastBuildDate] of line 194 is
    handed the clock reading, before any entry is added. *)
Definition build_feed (episodes : list Episode) : M Feed :=
  now <- datetime_now W ;;
  lastBuildDate <- lift_result (feedgen_date now) ;;
  entries <- lift_result (feed_entries episodes) ;;
  ret {| fg_id := PODCAST_BASE_URL cfg;
         fg_title := PODCAST_TITLE cfg;
         fg_author := (PODCAST_AUTHOR cfg, PODCAST_EMAIL cfg);
         fg_link_alternate := PODCAST_BASE_URL cfg;
         fg_link_self := PODCAST_BASE_URL cfg +:+ "/" +:+ RSS_FEED_PATH cfg;
         fg_description := PODCAST_DESCRIPTION cfg;
         fg_language := "en";
         fg_lastBuildDate := lastBuildDate;
         fg_entries := entries |}.

Definition rss_path : string := path_join (PODCAST_DIR cfg) (RSS_FEED_PATH cfg).

Definition generate_rss_feed (episodes : list Episode) : M unit :=
  try_except
    (doc <- build_feed episodes ;;
     call None (fun n => feedgen_rss_file W n rss_path doc) ;;
     write_file (WriteFeed rss_path doc) rss_path ;;
     if truthy (GCS_BUCKET_NAME cfg)
     then upload_to_gcs (GCS_BUCKET_NAME cfg) rss_path (RSS_FEED_PATH cfg) ;; ret tt
     else ret tt)
    (fun _ => ret tt).

(** *** generate_podcast, lines 220-280 *)

(** [l[-n:]] for a positive [n]. *)
Definition keep_last {A} (n : nat) (l : list A) : list A :=
  drop (length l - n) l.

(** Lines 261-265: append, then keep the last ten. *)
Definition ledger_append (episodes : list Episode) (episode_data : Episode)
    : list Episode :=
  let appended := episodes ++ [episode_data] in
  if 10 <? length appended then keep_last 10 appended else appended.

(** Lines 232-233. *)
Definition opening (timestamp : string) : string :=
  "Welcome to " +:+ PODCAST_TITLE cfg +:+ ". Episode " +:+ timestamp +:+ "." +:+ NL +:+
  "Today we'll be discussing the latest in AI and tech news." +:+ NL +:+ NL.

(** Line 238. *)
Definition closing : string :=
  NL +:+ "Thanks for listening to this episode of " +:+ PODCAST_TITLE cfg +:+
  ". Join us next time for more AI discussions!".

(** The loop of lines 235-236, [episode_content] being the text so far. *)
Fixpoint compose_loop (topics : list Topic) (episode_content : string) : M string :=
  match topics with
  | [] => ret episode_content
  | topic :: rest =>
      conversation <- generate_conversation topic ;;
      compose_loop rest (episode_content +:+ (conversation +:+ NL +:+ NL))
  end.

(** Lines 232-238. *)
Definition compose_script (timestamp : string) (topics : list Topic) : M string :=
  episode_content <- compose_loop topics (opening timestamp) ;;
  ret (episode_content +:+ closing).

(** Line 249: [audio_url if audio_url else audio_filename]. *)
Definition final_url_of (audio_url : option string) (audio_filename : string) : string :=
  match audio_url with
  | Some u => if nonempty u then u else audio_filename
  | None => audio_filename
  end.

(** Lines 244-247: [audio_url] stays [None] without a bucket. *)
Definition publish_audio (timestamp audio_filename : string) : M (option string) :=
  if truthy (GCS_BUCKET_NAME cfg)
  then upload_to_gcs (GCS_BUCKET_NAME cfg) audio_filename
         ("episodes/podcast_episode_" +:+ timestamp +:+ ".mp3")
  else ret None.

(** Lines 243-274: publish, record, index, answer. *)
Definition finish_episode (timestamp episode_content audio_filename : string)
    : M Response :=
  audio_url <- publish_audio timestamp audio_filename ;;
  let final_url := final_url_of audio_url audio_filename in
  created <- datetime_now W ;;
  let episode_data :=
    {| podcast_text := episode_content;
       audio_file := audio_filename;
       audio_url := final_url;
       timestamp := timestamp;
       created_at := isoformat created |} in
  episodes <- get_episodes ;;
  set_episodes (ledger_append episodes episode_data) ;;
  episodes <- get_episodes ;;
  generate_rss_feed episodes ;;
  answered <- datetime_now W ;;
  ret {| resp_podcast_text := episode_content;
         resp_audio_file := final_url;
         resp_created_at := isoformat answered |}.

(** The body of the [try], lines 222-274. *)
Definition generate_podcast_body : M Response :=
  topics <- fetch_tech_news ;;
  match topics with
  | [] =>
      now <- datetime_now W ;;
      ret {| resp_podcast_text := "No topics available for this episode.";
             resp_audio_file := "no_episode.mp3";
             resp_created_at := isoformat now |}
  | _ =>
      now <- datetime_now W ;;
      let timestamp := strftime now in
      episode_content <- compose_script timestamp topics ;;
      audio_filename <-
        text_to_speech episode_content
          (Some (path_join (PODCAST_DIR cfg)
                   ("podcast_episode_" +:+ timestamp +:+ ".mp3"))) ;;
      finish_episode timestamp episode_content audio_filename
  end.

(** The record of lines 278-280. *)
Definition degraded_response (now : datetime) : Response :=
  {| resp_podcast_text := "Error generating podcast.";
     resp_audio_file := "error.mp3";
     resp_created_at := isoformat now |}.

Definition generate_podcast : M Response :=
  try_except generate_podcast_body
    (fun _ => now <- datetime_now W ;; ret (degraded_response now)).

(** *** The endpoints, lines 283-325 *)

Definition internal_server_error {A} (e : exn) : M A :=
  raise (HTTPException 500 ("Internal server error: " +:+ str_exn e)).

Definition generate_episode : M Response :=
  try_except generate_podcast internal_server_error.

Definition get_latest_episode : M Response :=
  try_except
    (episodes <- get_episodes ;;
     match episodes with
     | [] => raise (HTTPException 404 "No episodes found")
     | _ =>
         match last episodes with
         | Some latest =>
             ret {| resp_podcast_text := podcast_text latest;
                    resp_audio_file := audio_url latest;
                    resp_created_at := created_at latest |}
         | None => raise (PyError "IndexError" "list index out of range")
         end
     end)
    internal_server_error.

Definition list_episodes : M (list Episode) :=
  try_except get_episodes internal_server_error.

End Program.

(** ** The parts of a script *)

(** The exchange a topic contributes: the template filled with one guest,
    one host phrase of each kind and one sector, or the fallback sentence. *)
Definition exchange_of (topic : Topic) (conversation : string) : Prop :=
  (exists guest host_intro host_response sector,
     guest ∈ AI_GUESTS /\ host_intro ∈ host_intros /\
     host_response ∈ host_responses /\ sector ∈ sectors /\
     conversation = conversation_text topic guest host_intro host_response sector) \/
  conversation = fallback_conversation topic.

(** The exchange of a topic whose rendering returned: the template of
    lines 121-130 filled with one guest, one host phrase of each kind and
    one sector. *)
Definition rendered_exchange (topic : Topic) (conversation : string) : Prop :=
  exists guest host_intro host_response sector,
    guest ∈ AI_GUESTS /\ host_intro ∈ host_intros /\
    host_response ∈ host_responses /\ sector ∈ sectors /\
    conversation = conversation_text topic guest host_intro host_response sector.

(** What one topic adds to the script at line 236. *)
Definition block (conversation : string) : string := conversation +:+ NL +:+ NL.

(** The texts of a list, one after the other. *)
Definition join (l : list string) : string := foldr String.append EmptyString l.

#[global] Instance Topic_eq_dec : EqDecision Topic.
Proof. solve_decision. Defined.

(** ** Notions of the further properties *)

(** What the feed requested as call number [n] adds to the aggregate:
    lines 77-85 on an empty list. *)
Definition source_topics (W : World) (n : nat) (src : string) : list Topic :=
  match feedparser_parse W n src with
  | Ok entries => append_entries src (take 3 entries) []
  | Raise _ => []
  end.

(** An entry that carries the two attributes lines 80 and 81 read. *)
Definition has_title_and_link (entry : Entry) : bool :=
  match entry_title entry, entry_link entry with
  | Some _, Some _ => true
  | _, _ => false
  end.

(** [n] runs one after the other, as successive requests to [/generate]
    or the scheduler's daily job make them. *)
Fixpoint generate_podcasts (cfg : Config) (W : World) (n : nat) : M unit :=
  match n with
  | 0 => ret tt
  | S k => generate_podcast cfg W ;; generate_podcasts cfg W k
  end.

(** ** Sample configurations and worlds *)

Definition sample_config : Config :=
  {| ELEVENLABS_API_KEY := None;
     PODCAST_DIR := "/tmp/episodes";
     GCS_BUCKET_NAME := None;
     VOICE_NAME := "Bella";
     RSS_FEED_PATH := "feed.rss";
     PODCAST_TITLE := "The Neural Narrative";
     PODCAST_AUTHOR := "AI Podcast Generator";
     PODCAST_EMAIL := "ai@example.com";
     PODCAST_DESCRIPTION := "An AI-generated podcast about technology.";
     PODCAST_BASE_URL := "https://example.com/podcast" |}.

Definition sample_time : datetime :=
  {| year := 2024; month := 3; day := 9;
     hour := 8; minute := 0; second := 5; microsecond := 120 |}.

Definition sample_entry (t : string) : Entry :=
  {| entry_title := Some t;
     entry_link := Some ("https://example.org/" +:+ t);
     entry_summary := Some "A short summary." |}.

Definition initial_state : State :=
  {| ticks := 0; podcast_episodes := []; trace := []; files := [] |}.

(** As [initial_state], with a local file named like the second sentinel
    of [text_to_speech] in the working directory. *)
Definition stale_file_state : State :=
  {| ticks := 0; podcast_episodes := []; trace := [];
     files := ["audio_generation_failed.mp3"] |}.

(** Every feed carries two entries, the random source answers, synthesis
    and storage are down. *)
Definition quiet_world : World :=
  {| feedparser_parse := fun _ _ => Ok [sample_entry "alpha"; sample_entry "beta"];
     random_answer := fun n => Ok (7 * n);
     clock := fun _ => sample_time;
     elevenlabs_generate := fun _ _ _ => Raise (PyError "ApiError" "quota exceeded");
     elevenlabs_save := fun _ _ _ => Ok tt;
     storage_upload := fun _ _ _ _ => Raise (PyError "Forbidden" "403");
     feedgen_rss_file := fun _ _ _ => Ok tt |}.

(** As [quiet_world], but the random source raises. *)
Definition broken_random_world : World :=
  {| feedparser_parse := feedparser_parse quiet_world;
     random_answer := fun _ => Raise (PyError "OSError" "entropy source unavailable");
     clock := clock quiet_world;
     elevenlabs_generate := elevenlabs_generate quiet_world;
     elevenlabs_save := elevenlabs_save quiet_world;
     storage_upload := storage_upload quiet_world;
     feedgen_rss_file := feedgen_rss_file quiet_world |}.

(** A credential is configured, a bucket is not. *)
Definition keyed_local_config : Config :=
  {| ELEVENLABS_API_KEY := Some "sk-test";
     PODCAST_DIR := PODCAST_DIR sample_config;
     GCS_BUCKET_NAME := None;
     VOICE_NAME := VOICE_NAME sample_config;
     RSS_FEED_PATH := RSS_FEED_PATH sample_config;
     PODCAST_TITLE := PODCAST_TITLE sample_config;
     PODCAST_AUTHOR := PODCAST_AUTHOR sample_config;
     PODCAST_EMAIL := PODCAST_EMAIL sample_config;
     PODCAST_DESCRIPTION := PODCAST_DESCRIPTION sample_config;
     PODCAST_BASE_URL := PODCAST_BASE_URL sample_config |}.

(** A credential and a bucket are configured. *)
Definition keyed_config : Config :=
  {| ELEVENLABS_API_KEY := Some "sk-test";
     PODCAST_DIR := PODCAST_DIR sample_config;
     GCS_BUCKET_NAME := Some "podcast-bucket";
     VOICE_NAME := VOICE_NAME sample_config;
     RSS_FEED_PATH := RSS_FEED_PATH sample_config;
     PODCAST_TITLE := PODCAST_TITLE sample_config;
     PODCAST_AUTHOR := PODCAST_AUTHOR sample_config;
     PODCAST_EMAIL := PODCAST_EMAIL sample_config;
     PODCAST_DESCRIPTION := PODCAST_DESCRIPTION sample_config;
     PODCAST_BASE_URL := PODCAST_BASE_URL sample_config |}.

(** As [quiet_world], but storage accepts every upload. *)
Definition uploading_world : World :=
  {| feedparser_parse := feedparser_parse quiet_world;
     random_answer := random_answer quiet_world;
     clock := clock quiet_world;
     elevenlabs_generate := elevenlabs_generate quiet_world;
     elevenlabs_save := elevenlabs_save quiet_world;
     storage_upload := fun _ bucket _ destination_blob_name =>
       Ok ("https://storage.googleapis.com/" +:+ bucket +:+ "/" +:+ destination_blob_name);
     feedgen_rss_file := feedgen_rss_file quiet_world |}.

(** As [uploading_world], with a synthesis service that answers. *)
Definition studio_world : World :=
  {| feedparser_parse := feedparser_parse quiet_world;
     random_answer := random_answer quiet_world;
     clock := clock quiet_world;
     elevenlabs_generate := fun _ _ _ => Ok "mp3 data";
     elevenlabs_save := elevenlabs_save quiet_world;
     storage_upload := storage_upload uploading_world;
     feedgen_rss_file := feedgen_rss_file quiet_world |}.

Definition sample_episode : Episode :=
  {| podcast_text := "Welcome to The Neural Narrative.";
     audio_file := "/tmp/episodes/podcast_episode_20240309_080005.mp3";
     audio_url := "/tmp/episodes/podcast_episode_20240309_080005.mp3";
     timestamp := "20240309_080005";
     created_at := isoformat sample_time |}.

(** * Properties *)

(** ** Strings and dates *)

Lemma append_nil (b : string) : EmptyString +:+ b = b.
Proof. reflexivity. Qed.

Lemma append_cons (c : ascii) (a b : string) : String c a +:+ b = String c (a +:+ b).
Proof. reflexivity. Qed.

Ltac str_norm := rewrite ?append_cons, ?append_nil.

Lemma append_empty_r (s : string) : s +:+ EmptyString = s.
Proof. induction s as [|c s IH]; str_norm; [reflexivity | now rewrite IH]. Qed.

Lemma append_assoc (a b c : string) : (a +:+ b) +:+ c = a +:+ (b +:+ c).
Proof. induction a as [|x a IH]; str_norm; [reflexivity | now rewrite IH]. Qed.

Lemma digit_val_char (d : N) : (d < 10)%N -> digit_val (digit_char d) = Some d.
Proof.
  intros Hd. unfold digit_val, digit_char.
  rewrite N_ascii_embedding by lia.
  replace (48 <=? 48 + d)%N with true by (symmetry; apply N.leb_le; lia).
  replace (48 + d <=? 57)%N with true by (symmetry; apply N.leb_le; lia).
  simpl. f_equal. lia.
Qed.

Lemma digits_dec (w : nat) : forall (v acc : N) (rest : string),
  digits w acc (dec w v +:+ rest) = Some ((acc * 10 ^ N.of_nat w + v mod 10 ^ N.of_nat w)%N, rest).
Proof.
  induction w as [|w IH]; intros v acc rest.
  - simpl. rewrite N.mod_1_r. do 2 f_equal. lia.
  - cbn [dec]; str_norm; cbn [digits].
    rewrite digit_val_char by (apply N.mod_lt; lia).
    rewrite IH. do 2 f_equal.
    rewrite Nat2N.inj_succ, N.pow_succ_r'.
    rewrite (N.mul_comm 10 (10 ^ N.of_nat w)).
    rewrite N.Div0.mod_mul_r. lia.
Qed.

Lemma digits_dec_small (w : nat) (v : N) (rest : string) :
  (v < 10 ^ N.of_nat w)%N ->
  digits w 0 (dec w v +:+ rest) = Some (v, rest).
Proof.
  intros Hv. rewrite digits_dec, N.mod_small by exact Hv. reflexivity.
Qed.

Lemma valid_bounds (d : datetime) :
  valid d = true ->
  (year d < 10 ^ 4 /\ month d < 10 ^ 2 /\ day d < 10 ^ 2 /\ hour d < 10 ^ 2 /\
   minute d < 10 ^ 2 /\ second d < 10 ^ 2 /\ microsecond d < 10 ^ 6)%N.
Proof.
  unfold valid. rewrite !andb_true_iff, !N.leb_le, !N.ltb_lt.
  intros (((((((((_ & Hy) & _) & Hm) & _) & Hd) & Hh) & Hmi) & Hs) & Hus).
  assert (days_in_month (year d) (month d) <= 31)%N.
  { unfold days_in_month. repeat case_match; lia. }
  change (10 ^ 4)%N with 10000%N. change (10 ^ 2)%N with 100%N.
  change (10 ^ 6)%N with 1000000%N. lia.
Qed.

Lemma parse_iso_isoformat (d : datetime) : valid d = true -> parse_iso (isoformat d) = Some d.
Proof.
  intros Hv. destruct (valid_bounds d Hv) as (Hy & Hm & Hd & Hh & Hmi & Hs & Hus).
  destruct d as [y mo dd h mi s us]. cbn [year month day hour minute second microsecond] in *.
  unfold parse_iso, isoformat. cbn [year month day hour minute second microsecond].
  rewrite (digits_dec_small 4) by exact Hy. str_norm; cbn [mbind option_bind expect Ascii.eqb Bool.eqb].
  rewrite (digits_dec_small 2) by exact Hm. str_norm; cbn [mbind option_bind expect Ascii.eqb Bool.eqb].
  rewrite (digits_dec_small 2) by exact Hd. str_norm; cbn [mbind option_bind expect Ascii.eqb Bool.eqb].
  rewrite (digits_dec_small 2) by exact Hh. str_norm; cbn [mbind option_bind expect Ascii.eqb Bool.eqb].
  rewrite (digits_dec_small 2) by exact Hmi. str_norm; cbn [mbind option_bind expect Ascii.eqb Bool.eqb].
  rewrite (digits_dec_small 2) by exact Hs. cbn [mbind option_bind].
  destruct (N.eqb_spec us 0) as [->|Hne].
  - reflexivity.
  - str_norm; cbn [parse_fraction Ascii.eqb Bool.eqb].
    rewrite <- (append_empty_r (dec 6 us)).
    rewrite (digits_dec_small 6) by exact Hus. reflexivity.
Qed.

Lemma fromisoformat_isoformat (d : datetime) : valid d = true -> fromisoformat (isoformat d) = Ok d.
Proof.
  intros Hv. unfold fromisoformat. rewrite parse_iso_isoformat by exact Hv.
  now rewrite Hv.
Qed.

(** ** Computations *)

Lemma bind_ok {A B} (m : M A) (k : A -> M B) st a st1 :
  m st = (Ok a, st1) -> bind m k st = k a st1.
Proof. intros H. unfold bind. now rewrite H. Qed.

Lemma bind_raise {A B} (m : M A) (k : A -> M B) st e st1 :
  m st = (Raise e, st1) -> bind m k st = (Raise e, st1).
Proof. intros H. unfold bind. now rewrite H. Qed.

Lemma try_ok {A} (m : M A) (h : exn -> M A) st a st1 :
  m st = (Ok a, st1) -> try_except m h st = (Ok a, st1).
Proof. intros H. unfold try_except. now rewrite H. Qed.

Lemma try_raise {A} (m : M A) (h : exn -> M A) st e st1 :
  m st = (Raise e, st1) -> try_except m h st = h e st1.
Proof. intros H. unfold try_except. now rewrite H. Qed.

Section Combinators.
Context {A B : Type}.
Implicit Types (m : M A) (k : A -> M B) (h : exn -> M A).

Lemma nr_ret (a : A) : never_raises (ret a).
Proof. intros st. now exists a. Qed.

Lemma nr_bind m k : never_raises m -> (forall a, never_raises (k a)) -> never_raises (bind m k).
Proof.
  intros Hm Hk st. unfold bind. destruct (Hm st) as [a Ha].
  destruct (m st) as [[a'|e] st1]; simpl in Ha; [|discriminate]. apply Hk.
Qed.

Lemma nr_try m h : (forall e, never_raises (h e)) -> never_raises (try_except m h).
Proof.
  intros Hh st. unfold try_except. destruct (m st) as [[a|e] st1]; [now exists a | apply Hh].
Qed.

Lemma kl_ret (a : A) : keeps_ledger (ret a).
Proof. now intros st. Qed.

Lemma kl_raise (e : exn) : keeps_ledger (@raise A e).
Proof. now intros st. Qed.

Lemma kl_lift (r : result A) : keeps_ledger (lift_result r).
Proof. now intros st. Qed.

Lemma kl_call ev (answer : nat -> result A) : keeps_ledger (call ev answer).
Proof. now intros st. Qed.

Lemma kl_bind m k : keeps_ledger m -> (forall a, keeps_ledger (k a)) -> keeps_ledger (bind m k).
Proof.
  intros Hm Hk st. unfold bind. specialize (Hm st).
  destruct (m st) as [[a|e] st1]; simpl in *; [|exact Hm].
  now rewrite Hk.
Qed.

Lemma kl_try m h : keeps_ledger m -> (forall e, keeps_ledger (h e)) -> keeps_ledger (try_except m h).
Proof.
  intros Hm Hh st. unfold try_except. specialize (Hm st).
  destruct (m st) as [[a|e] st1]; simpl in *; [exact Hm|].
  now rewrite Hh.
Qed.

Lemma si_ret (a : A) : silent (ret a).
Proof. now intros st. Qed.

Lemma si_raise (e : exn) : silent (@raise A e).
Proof. now intros st. Qed.

Lemma si_call (answer : nat -> result A) : silent (call None answer).
Proof. now intros st. Qed.

Lemma si_bind m k : silent m -> (forall a, silent (k a)) -> silent (bind m k).
Proof.
  intros Hm Hk st. unfold bind. destruct (Hm st) as [Ht Hf].
  destruct (m st) as [[a|e] st1]; simpl in *; [|now split].
  destruct (Hk a st1) as [-> ->]. now split.
Qed.

Lemma si_try m h : silent m -> (forall e, silent (h e)) -> silent (try_except m h).
Proof.
  intros Hm Hh st. unfold try_except. destruct (Hm st) as [Ht Hf].
  destruct (m st) as [[a|e] st1]; simpl in *; [now split|].
  destruct (Hh e st1) as [-> ->]. now split.
Qed.

End Combinators.

Create HintDb prog discriminated.
#[local] Hint Resolve nr_ret nr_bind nr_try kl_ret kl_raise kl_lift kl_call kl_bind kl_try
  si_ret si_raise si_call si_bind si_try : prog.

Lemma nr_write_file ev path : never_raises (write_file ev path).
Proof. intros st. now eexists. Qed.

Lemma kl_write_file ev path : keeps_ledger (write_file ev path).
Proof. now intros st. Qed.

Lemma kl_open_file path : keeps_ledger (open_file path).
Proof. intros st. unfold open_file. now destruct (file_exists path st). Qed.

Lemma si_open_file path : silent (open_file path).
Proof. intros st. unfold open_file. now destruct (file_exists path st). Qed.

Lemma nr_now (W : World) : never_raises (datetime_now W).
Proof. intros st. now eexists. Qed.

Lemma kl_now (W : World) : keeps_ledger (datetime_now W).
Proof. apply kl_call. Qed.

Lemma si_now (W : World) : silent (datetime_now W).
Proof. apply si_call. Qed.

#[local] Hint Resolve nr_now kl_now si_now nr_write_file kl_write_file kl_open_file : prog.

Lemma nr_run {A} (m : M A) : never_raises m -> forall st, exists a st', m st = (Ok a, st').
Proof.
  intros Hm st. destruct (Hm st) as [a Ha].
  destruct (m st) as [r st']. simpl in Ha. subst r. now exists a, st'.
Qed.

(** ** The episode ledger *)

Lemma keep_last_short {A} (n : nat) (l : list A) : length l <= n -> keep_last n l = l.
Proof. intros H. unfold keep_last. now replace (length l - n) with 0 by lia. Qed.

Lemma length_keep_last {A} (n : nat) (l : list A) : length (keep_last n l) = Nat.min (length l) n.
Proof. unfold keep_last. rewrite length_drop. lia. Qed.

Lemma keep_last_app {A} (n : nat) (a b : list A) :
  keep_last n (keep_last n a ++ b) = keep_last n (a ++ b).
Proof.
  unfold keep_last. rewrite !length_app, !drop_app, !length_drop, drop_drop.
  f_equal; f_equal; lia.
Qed.

Lemma ledger_append_keep_last (l : list Episode) (x : Episode) :
  ledger_append l x = keep_last 10 (l ++ [x]).
Proof.
  unfold ledger_append. cbv zeta.
  destruct (Nat.ltb_spec 10 (length (l ++ [x]))); [reflexivity|].
  now rewrite keep_last_short.
Qed.

Lemma ledger_appends (records l0 : list Episode) :
  length l0 <= 10 ->
  fold_left ledger_append records l0 = keep_last 10 (l0 ++ records).
Proof.
  revert l0. induction records as [|x records IH]; intros l0 Hl0; simpl.
  - now rewrite app_nil_r, keep_last_short.
  - rewrite IH.
    + rewrite ledger_append_keep_last, keep_last_app, <- app_assoc. reflexivity.
    + rewrite ledger_append_keep_last, length_keep_last. lia.
Qed.

(** ** The random source *)

Section Random.
Variable W : World.

Lemma randbelow_ok (n : nat) (st : State) (r : nat) :
  random_answer W (ticks st) = Ok r ->
  randbelow W n st = (Ok (r mod n), called None st).
Proof. intros H. unfold randbelow, bind, call, ret. now rewrite H. Qed.

Lemma kl_randbelow n : keeps_ledger (randbelow W n).
Proof. unfold randbelow. auto with prog. Qed.

Lemma si_randbelow n : silent (randbelow W n).
Proof. unfold randbelow. auto with prog. Qed.

Lemma kl_random_choice {A} (seq : list A) : keeps_ledger (random_choice W seq).
Proof.
  unfold random_choice. destruct seq; [apply kl_raise|].
  apply kl_bind; [apply kl_randbelow|]. intros j. case_match; auto with prog.
Qed.

Lemma kl_sample_loop {A} (k : nat) : forall pool selected : list A,
  keeps_ledger (sample_loop W k pool selected).
Proof.
  induction k as [|k IH]; intros pool selected; cbn [sample_loop]; [apply kl_ret|].
  apply kl_bind; [apply kl_randbelow|]. intros j. repeat case_match; auto with prog.
Qed.

Lemma si_sample_loop {A} (k : nat) : forall pool selected : list A,
  silent (sample_loop W k pool selected).
Proof.
  induction k as [|k IH]; intros pool selected; cbn [sample_loop]; [apply si_ret|].
  apply si_bind; [apply si_randbelow|]. intros j. repeat case_match; auto with prog.
Qed.

(** Taking an item out of the pool and refilling its slot with the last
    one leaves the other items of the pool, each as often as before. *)
Lemma pool_step {A} (pool : list A) (j : nat) (x y : A) :
  pool !! j = Some x -> last pool = Some y ->
  x :: take (length pool - 1) (<[j := y]> pool) ≡ₚ pool.
Proof.
  intros Hj Hlast. apply last_Some in Hlast as [init ->].
  rewrite length_app. cbn [length]. replace (length init + 1 - 1) with (length init) by lia.
  destruct (decide (j < length init)) as [Hlt|Hge].
  - rewrite insert_app_l by exact Hlt.
    rewrite take_app_length' by now rewrite length_insert.
    rewrite lookup_app_l in Hj by exact Hlt.
    rewrite insert_take_drop by exact Hlt.
    rewrite <- (take_drop_middle init j x Hj) at 3.
    rewrite <- app_assoc. cbn [app].
    rewrite <- (Permutation_middle (take j init) (drop (S j) init ++ [y]) x).
    apply perm_skip, Permutation_app_head, Permutation_cons_append.
  - apply lookup_lt_Some in Hj as Hlen. rewrite length_app in Hlen. cbn [length] in Hlen.
    assert (j = length init) as -> by lia.
    rewrite lookup_app_r, Nat.sub_diag in Hj by lia. injection Hj as ->.
    rewrite list_insert_id by (rewrite lookup_app_r, Nat.sub_diag by lia; reflexivity).
    rewrite take_app_length.
    apply Permutation_cons_append.
Qed.

(** When the random source answers [k] more times, the loop returns [k]
    items taken from the pool, none of them taken twice. *)
Lemma sample_loop_ok {A} (k : nat) : forall (pool selected : list A) (st : State),
  k <= length pool ->
  (forall i, i < k -> exists r, random_answer W (ticks st + i) = Ok r) ->
  exists chosen st',
    sample_loop W k pool selected st = (Ok (selected ++ chosen), st') /\
    length chosen = k /\ chosen ⊆+ pool /\ ticks st' = ticks st + k.
Proof.
  induction k as [|k IH]; intros pool selected st Hk Hdraws; cbn [sample_loop].
  - exists [], st. rewrite app_nil_r. repeat split; [apply submseteq_nil_l | lia].
  - destruct (Hdraws 0 ltac:(lia)) as [r Hr]. rewrite Nat.add_0_r in Hr.
    rewrite (bind_ok _ _ _ _ _ (randbelow_ok _ _ _ Hr)).
    assert (r mod length pool < length pool) as Hj by (apply Nat.mod_upper_bound; lia).
    destruct (lookup_lt_is_Some_2 pool _ Hj) as [x Hx]. rewrite Hx.
    destruct (last pool) as [y|] eqn:Hlast.
    2:{ apply last_None in Hlast. subst pool. simpl in Hk. lia. }
    set (pool' := take (length pool - 1) (<[r mod length pool := y]> pool)).
    set (st1 := called None st).
    assert (length pool' = length pool - 1) as Hlen'.
    { unfold pool'. rewrite length_take, length_insert. lia. }
    destruct (IH pool' (selected ++ [x]) st1) as (chosen & st' & Hrun & Hlen & Hsub & Hticks).
    + lia.
    + intros i Hi. destruct (Hdraws (S i) ltac:(lia)) as [r' Hr']. exists r'.
      cbn [ticks called st1]. now replace (S (ticks st) + i) with (ticks st + S i) by lia.
    + exists (x :: chosen), st'. rewrite Hrun, <- app_assoc. cbn [app].
      repeat split.
      * simpl. now rewrite Hlen.
      * rewrite <- (pool_step pool _ x y Hx Hlast). now apply submseteq_skip.
      * rewrite Hticks. cbn [ticks called st1]. lia.
Qed.

Lemma random_sample_ok {A} (population : list A) (k : nat) (st : State) :
  k <= length population ->
  (forall i, i < k -> exists r, random_answer W (ticks st + i) = Ok r) ->
  exists chosen st',
    random_sample W population k st = (Ok chosen, st') /\
    length chosen = k /\ chosen ⊆+ population /\ ticks st' = ticks st + k.
Proof.
  intros Hk Hdraws. unfold random_sample.
  destruct (Nat.ltb_spec (length population) k); [lia|].
  now apply (sample_loop_ok k population []).
Qed.

Lemma kl_random_sample {A} (population : list A) k : keeps_ledger (random_sample W population k).
Proof. unfold random_sample. case_match; [apply kl_raise | apply kl_sample_loop]. Qed.

Lemma si_random_sample {A} (population : list A) k : silent (random_sample W population k).
Proof. unfold random_sample. case_match; [apply si_raise | apply si_sample_loop]. Qed.

End Random.

(** ** fetch_tech_news *)

Section Fetch.
Variable W : World.

Lemma fetch_source_run (src : string) (news_list : list Topic) (st : State) :
  fetch_source W src news_list st =
    (Ok match feedparser_parse W (ticks st) src with
        | Ok entries => append_entries src (take 3 entries) news_list
        | Raise _ => news_list
        end,
     called (Some (FeedParse src)) st).
Proof.
  unfold fetch_source, try_except, bind, call, ret.
  now destruct (feedparser_parse W (ticks st) src).
Qed.

Lemma gather_loop_run (sources : list string) : forall (news_list : list Topic) (st : State),
  exists aggregate,
    gather_loop W sources news_list st =
      (Ok aggregate,
       {| ticks := ticks st + length sources;
          podcast_episodes := podcast_episodes st;
          trace := trace st ++ (FeedParse <$> sources);
          files := files st |}).
Proof.
  induction sources as [|src rest IH]; intros news_list st; cbn [gather_loop].
  - exists news_list. unfold ret. destruct st. cbn.
    now rewrite Nat.add_0_r, app_nil_r.
  - rewrite (bind_ok _ _ _ _ _ (fetch_source_run src news_list st)).
    edestruct IH as [aggregate ->]. exists aggregate. cbn.
    rewrite <- app_assoc. do 3 f_equal. lia.
Qed.

Lemma gather_news_run (st : State) :
  exists aggregate,
    gather_news W st =
      (Ok aggregate,
       {| ticks := ticks st + 3;
          podcast_episodes := podcast_episodes st;
          trace := trace st ++ (FeedParse <$> news_sources);
          files := files st |}).
Proof. apply (gather_loop_run news_sources). Qed.

Lemma submseteq_NoDup {A} (l k : list A) : l ⊆+ k -> NoDup k -> NoDup l.
Proof.
  intros Hsub Hk. apply submseteq_Permutation in Hsub as [rest Hperm].
  rewrite Hperm in Hk. now apply NoDup_app in Hk as [? _].
Qed.

(** Lines 93-96 on any aggregate. *)
Lemma select_news_cases (news_list : list Topic) (st : State) :
  (news_list = [] -> select_news W news_list st = (Ok [fallback_topic], st)) /\
  (0 < length news_list <= 5 -> select_news W news_list st = (Ok news_list, st)) /\
  (5 < length news_list ->
   (forall i, i < 5 -> exists r, random_answer W (ticks st + i) = Ok r) ->
   exists picked st',
     select_news W news_list st = (Ok picked, st') /\
     length picked = 5 /\ picked ⊆+ news_list) /\
  (forall topics st', select_news W news_list st = (Ok topics, st') -> topics <> []).
Proof.
  unfold select_news. repeat split.
  - intros ->. reflexivity.
  - intros [Hpos Hle]. destruct (Nat.ltb_spec 5 (length news_list)); [lia|].
    destruct news_list; [simpl in Hpos; lia | reflexivity].
  - intros Hgt Hdraws. destruct (Nat.ltb_spec 5 (length news_list)); [|lia].
    destruct (random_sample_ok W news_list 5 st) as (picked & st' & Hrun & Hlen & Hsub & _);
      [lia | exact Hdraws |].
    exists picked, st'. rewrite (bind_ok _ _ _ _ _ Hrun).
    destruct picked; [discriminate Hlen | now repeat split].
  - intros topics st'. unfold bind.
    destruct (if 5 <? length news_list then _ else _) as [[l|e] st1]; [|discriminate].
    unfold ret. intros [= <- _]. now destruct l.
Qed.

Lemma kl_select_news l : keeps_ledger (select_news W l).
Proof.
  unfold select_news. apply kl_bind; [|auto with prog].
  case_match; [apply kl_random_sample | apply kl_ret].
Qed.

Lemma si_select_news l : silent (select_news W l).
Proof.
  unfold select_news. apply si_bind; [|auto with prog].
  case_match; [apply si_random_sample | apply si_ret].
Qed.

(** What a call of [fetch_tech_news] leaves behind, whether it returns or
    raises: the ledger and the files as they were, and one recorded call
    per source. *)
Lemma fetch_tech_news_frame (st : State) :
  podcast_episodes (snd (fetch_tech_news W st)) = podcast_episodes st /\
  trace (snd (fetch_tech_news W st)) = trace st ++ (FeedParse <$> news_sources) /\
  files (snd (fetch_tech_news W st)) = files st.
Proof.
  unfold fetch_tech_news. destruct (gather_news_run st) as [aggregate Hg].
  rewrite (bind_ok _ _ _ _ _ Hg).
  rewrite kl_select_news.
  match goal with |- context [select_news W aggregate ?s] =>
    destruct (si_select_news aggregate s) as [-> ->] end.
  now split_and!.
Qed.

End Fetch.

(** C3.  [fetch_tech_news] gathers the aggregate of the three feeds and
    applies lines 93-96 to it.  On every aggregate these lines return: a
    sample of exactly 5 items, each drawn from the aggregate and none drawn
    twice, when the aggregate has more than 5 (the random source answering
    its 5 draws); the aggregate itself when it has 1 to 5 items; the single
    fallback item, titled "No fresh news found.", when it is empty.  What
    they return is never the empty list. *)
Theorem fetch_tech_news_selection (W : World) :
  (forall st,
     exists aggregate st1,
       gather_news W st = (Ok aggregate, st1) /\
       fetch_tech_news W st = select_news W aggregate st1) /\
  (forall aggregate st1,
     (aggregate = [] -> select_news W aggregate st1 = (Ok [fallback_topic], st1)) /\
     (0 < length aggregate <= 5 -> select_news W aggregate st1 = (Ok aggregate, st1)) /\
     (5 < length aggregate ->
      (forall i, i < 5 -> exists r, random_answer W (ticks st1 + i) = Ok r) ->
      exists picked st2,
        select_news W aggregate st1 = (Ok picked, st2) /\
        length picked = 5 /\ picked ⊆+ aggregate /\
        (NoDup aggregate -> NoDup picked)) /\
     (forall topics st2, select_news W aggregate st1 = (Ok topics, st2) -> topics <> [])) /\
  title fallback_topic = "No fresh news found.".
Proof.
  split_and!; [| |reflexivity].
  - intros st. destruct (gather_news_run W st) as [aggregate Hg].
    eexists aggregate, _. split; [exact Hg|].
    unfold fetch_tech_news. now rewrite (bind_ok _ _ _ _ _ Hg).
  - intros aggregate st1.
    destruct (select_news_cases W aggregate st1) as (Hempty & Hfew & Hmany & Hne).
    split_and!; [exact Hempty | exact Hfew | | exact Hne].
    intros Hgt Hdraws. destruct (Hmany Hgt Hdraws) as (picked & st2 & Hrun & Hlen & Hsub).
    exists picked, st2. split_and!; [exact Hrun | exact Hlen | exact Hsub |].
    now apply submseteq_NoDup.
Qed.

(** Six fetched items, five returned. *)
Lemma fetch_tech_news_selection_witness :
  exists picked st2,
    fetch_tech_news quiet_world initial_state = (Ok picked, st2) /\
    length picked = 5 /\ NoDup picked.
Proof.
  destruct (fetch_tech_news_selection quiet_world) as (Hfetch & Hselect & _).
  destruct (Hfetch initial_state) as (aggregate & st1 & Hg & ->).
  vm_compute in Hg. injection Hg as <- <-.
  match goal with |- context [select_news _ ?agg ?s] =>
    destruct (Hselect agg s) as (_ & _ & Hmany & _) end.
  destruct Hmany as (picked & st2 & Hrun & Hlen & _ & Hnodup).
  - vm_compute. lia.
  - intros i _. now eexists.
  - exists picked, st2. split_and!; [exact Hrun | exact Hlen |].
    apply Hnodup. apply (bool_decide_unpack _). vm_compute. reflexivity.
Defined.

(** ** Slices *)

Lemma str_upto_prefix (n : nat) : forall s : string,
  exists rest, s = str_upto n s +:+ rest.
Proof.
  unfold str_upto. induction n as [|n IH]; intros s.
  - exists s. now destruct s.
  - destruct s as [|c s]; [now exists EmptyString|].
    destruct (IH s) as [rest Hrest]. exists rest.
    cbn [substring]. rewrite append_cons. now f_equal.
Qed.

Lemma length_str_upto (n : nat) : forall s : string,
  String.length (str_upto n s) = Nat.min n (String.length s).
Proof.
  unfold str_upto. induction n as [|n IH]; intros s.
  - now destruct s.
  - destruct s as [|c s]; [reflexivity|]. cbn [substring String.length]. now rewrite IH.
Qed.

Lemma nonempty_append_r (a b : string) : nonempty b = true -> nonempty (a +:+ b) = true.
Proof. now destruct a. Qed.

(** ** generate_conversation *)

Section Conversation.
Variable W : World.

Lemma random_choice_elem {A} (seq : list A) (st st' : State) (x : A) :
  random_choice W seq st = (Ok x, st') -> x ∈ seq.
Proof.
  unfold random_choice. destruct seq as [|y seq]; [discriminate|].
  unfold bind. destruct (randbelow W _ st) as [[j|e] st1]; [|discriminate].
  destruct (_ !! j) as [z|] eqn:Hz; [|discriminate].
  unfold ret. intros [= <- _]. eapply list_elem_of_lookup_2, Hz.
Qed.

Lemma render_conversation_ok (topic : Topic) (st st' : State) (conversation : string) :
  render_conversation W topic st = (Ok conversation, st') ->
  exists guest host_intro host_response sector,
    guest ∈ AI_GUESTS /\ host_intro ∈ host_intros /\
    host_response ∈ host_responses /\ sector ∈ sectors /\
    conversation = conversation_text topic guest host_intro host_response sector.
Proof.
  unfold render_conversation, bind.
  destruct (random_choice W AI_GUESTS st) as [[guest|?] st1] eqn:Hg; [|discriminate].
  destruct (random_choice W host_intros st1) as [[hi|?] st2] eqn:Hi; [|discriminate].
  destruct (random_choice W host_responses st2) as [[hr|?] st3] eqn:Hr; [|discriminate].
  destruct (random_choice W sectors st3) as [[sec|?] st4] eqn:Hs; [|discriminate].
  unfold ret. intros [= <- _]. exists guest, hi, hr, sec.
  eauto 10 using random_choice_elem.
Qed.

(** With an answer of the random source, [random_choice] returns the item
    at the index the answer gives. *)
Lemma random_choice_ok {A} (seq : list A) (st : State) (r : nat) :
  seq <> [] -> random_answer W (ticks st) = Ok r ->
  exists x,
    seq !! (r mod length seq) = Some x /\
    random_choice W seq st = (Ok x, called None st).
Proof.
  intros Hne Hr. unfold random_choice. destruct seq as [|y seq]; [congruence|].
  rewrite (bind_ok _ _ _ _ _ (randbelow_ok W _ _ _ Hr)).
  destruct (lookup_lt_is_Some_2 (y :: seq) (r mod length (y :: seq))) as [x Hx].
  { apply Nat.mod_upper_bound. simpl. lia. }
  exists x. rewrite Hx. split; reflexivity.
Qed.

(** When the random source answers the four draws of lines 101, 117, 118
    and 130, rendering returns the template filled with the items drawn. *)
Lemma render_conversation_answers (topic : Topic) (st : State) (r0 r1 r2 r3 : nat) :
  random_answer W (ticks st) = Ok r0 ->
  random_answer W (ticks st + 1) = Ok r1 ->
  random_answer W (ticks st + 2) = Ok r2 ->
  random_answer W (ticks st + 3) = Ok r3 ->
  exists guest host_intro host_response sector,
    AI_GUESTS !! (r0 mod 5) = Some guest /\
    host_intros !! (r1 mod 5) = Some host_intro /\
    host_responses !! (r2 mod 5) = Some host_response /\
    sectors !! (r3 mod 5) = Some sector /\
    render_conversation W topic st =
      (Ok (conversation_text topic guest host_intro host_response sector),
       called None (called None (called None (called None st)))).
Proof.
  intros H0 H1 H2 H3.
  replace (ticks st + 1) with (ticks (called None st)) in H1 by (cbn; lia).
  replace (ticks st + 2) with (ticks (called None (called None st))) in H2 by (cbn; lia).
  replace (ticks st + 3) with (ticks (called None (called None (called None st)))) in H3
    by (cbn; lia).
  destruct (random_choice_ok AI_GUESTS _ _ ltac:(discriminate) H0) as (guest & Hg & Rg).
  destruct (random_choice_ok host_intros _ _ ltac:(discriminate) H1) as (hi & Hi & Ri).
  destruct (random_choice_ok host_responses _ _ ltac:(discriminate) H2) as (hr & Hr & Rr).
  destruct (random_choice_ok sectors _ _ ltac:(discriminate) H3) as (sec & Hs & Rs).
  exists guest, hi, hr, sec. split_and!; [exact Hg | exact Hi | exact Hr | exact Hs |].
  unfold render_conversation.
  rewrite (bind_ok _ _ _ _ _ Rg), (bind_ok _ _ _ _ _ Ri), (bind_ok _ _ _ _ _ Rr),
    (bind_ok _ _ _ _ _ Rs).
  reflexivity.
Qed.

Lemma kl_render_conversation topic : keeps_ledger (render_conversation W topic).
Proof. unfold render_conversation. auto 10 using kl_random_choice with prog. Qed.

Lemma nr_generate_conversation topic : never_raises (generate_conversation W topic).
Proof. unfold generate_conversation. auto with prog. Qed.

Lemma kl_generate_conversation topic : keeps_ledger (generate_conversation W topic).
Proof. unfold generate_conversation. auto using kl_render_conversation with prog. Qed.

(** Whatever rendering does, [generate_conversation] returns: the rendered
    text, or the fallback sentence when rendering raised. *)
Lemma generate_conversation_run (topic : Topic) (st : State) :
  (exists conversation st',
     render_conversation W topic st = (Ok conversation, st') /\
     generate_conversation W topic st = (Ok conversation, st')) \/
  (exists e st',
     render_conversation W topic st = (Raise e, st') /\
     generate_conversation W topic st = (Ok (fallback_conversation topic), st')).
Proof.
  unfold generate_conversation, try_except.
  destruct (render_conversation W topic st) as [[c|e] st']; [left | right]; eauto.
Qed.

Lemma generate_conversation_exchange (topic : Topic) (st st' : State) (conversation : string) :
  generate_conversation W topic st = (Ok conversation, st') -> exchange_of topic conversation.
Proof.
  intros Hrun.
  destruct (generate_conversation_run topic st) as [(c & st1 & Hr & Hg)|(e & st1 & _ & Hg)];
    rewrite Hg in Hrun; injection Hrun as <- <-.
  - left. eapply render_conversation_ok, Hr.
  - now right.
Qed.

(** With a random source that answers, the exchange is a rendered one. *)
Lemma generate_conversation_rendered (topic : Topic) (st : State) :
  (forall n, exists r, random_answer W n = Ok r) ->
  exists conversation st',
    generate_conversation W topic st = (Ok conversation, st') /\
    rendered_exchange topic conversation.
Proof.
  intros Hanswers.
  destruct (Hanswers (ticks st)) as [r0 H0]. destruct (Hanswers (ticks st + 1)) as [r1 H1].
  destruct (Hanswers (ticks st + 2)) as [r2 H2]. destruct (Hanswers (ticks st + 3)) as [r3 H3].
  destruct (render_conversation_answers topic st r0 r1 r2 r3 H0 H1 H2 H3)
    as (guest & hi & hr & sec & Hg & Hi & Hr & Hs & Hrun).
  eexists _, _. unfold generate_conversation. rewrite (try_ok _ _ _ _ _ Hrun).
  split; [reflexivity|]. exists guest, hi, hr, sec.
  split_and!; [| | | |reflexivity]; eapply list_elem_of_lookup_2; eassumption.
Qed.

End Conversation.

(** The rendered text carries the first 100 characters of the summary. *)
Lemma conversation_text_embeds (topic : Topic) (guest : Guest)
    (host_intro host_response sector : string) :
  exists before after,
    conversation_text topic guest host_intro host_response sector =
      before +:+ "The article mentions " +:+ str_upto 100 (summary topic) +:+ "... " +:+ after.
Proof.
  eexists (NL +:+ "Host: Let's talk about " +:+ title topic +:+ ". " +:+ host_intro +:+
           NL +:+ NL +:+ name guest +:+ " (" +:+ style guest +:+ "): " +:+ intro guest +:+
           " " +:+ "I was reading about " +:+ title topic +:+ ". "), _.
  unfold conversation_text. rewrite !append_assoc. reflexivity.
Qed.

(** ** The script *)

Section Script.
Variable cfg : Config.
Variable W : World.

Lemma compose_loop_run (topics : list Topic) : forall (episode_content : string) (st : State),
  exists conversations st',
    compose_loop W topics episode_content st =
      (Ok (episode_content +:+ join (block <$> conversations)), st') /\
    Forall2 exchange_of topics conversations.
Proof.
  induction topics as [|topic rest IH]; intros acc st; cbn [compose_loop].
  - exists [], st. cbn. now rewrite append_empty_r.
  - destruct (nr_run _ (nr_generate_conversation W topic) st) as (c & st1 & Hc).
    rewrite (bind_ok _ _ _ _ _ Hc).
    destruct (IH (acc +:+ (c +:+ NL +:+ NL)) st1) as (cs & st' & Hrun & Hall).
    exists (c :: cs), st'. split.
    + rewrite Hrun. cbn [fmap list_fmap join foldr]. fold (join (block <$> cs)).
      unfold block. now rewrite !append_assoc.
    + constructor; [|exact Hall]. eapply generate_conversation_exchange, Hc.
Qed.

(** With a random source that answers, every topic gets a rendered
    exchange. *)
Lemma compose_loop_rendered (topics : list Topic) :
  (forall n, exists r, random_answer W n = Ok r) ->
  forall (episode_content : string) (st : State),
  exists conversations st',
    compose_loop W topics episode_content st =
      (Ok (episode_content +:+ join (block <$> conversations)), st') /\
    Forall2 rendered_exchange topics conversations.
Proof.
  intros Hanswers.
  induction topics as [|topic rest IH]; intros acc st; cbn [compose_loop].
  - exists [], st. cbn. now rewrite append_empty_r.
  - destruct (generate_conversation_rendered W topic st Hanswers) as (c & st1 & Hc & Hrendered).
    rewrite (bind_ok _ _ _ _ _ Hc).
    destruct (IH (acc +:+ (c +:+ NL +:+ NL)) st1) as (cs & st' & Hrun & Hall).
    exists (c :: cs), st'. split.
    + rewrite Hrun. cbn [fmap list_fmap join foldr]. fold (join (block <$> cs)).
      unfold block. now rewrite !append_assoc.
    + constructor; [exact Hrendered | exact Hall].
Qed.

Lemma kl_compose_loop topics : forall acc, keeps_ledger (compose_loop W topics acc).
Proof.
  induction topics as [|topic rest IH]; intros acc; cbn [compose_loop];
    auto using kl_generate_conversation with prog.
Qed.

Lemma compose_script_run (timestamp : string) (topics : list Topic) (st : State) :
  exists conversations st',
    compose_script cfg W timestamp topics st =
      (Ok (opening cfg timestamp +:+ join (block <$> conversations) +:+ closing cfg), st') /\
    Forall2 exchange_of topics conversations.
Proof.
  unfold compose_script.
  destruct (compose_loop_run topics (opening cfg timestamp) st) as (cs & st' & Hrun & Hall).
  exists cs, st'. rewrite (bind_ok _ _ _ _ _ Hrun). unfold ret.
  now rewrite append_assoc.
Qed.

Lemma nr_compose_script ts topics : never_raises (compose_script cfg W ts topics).
Proof.
  intros st. destruct (compose_script_run ts topics st) as (cs & st' & -> & _). now eexists.
Qed.

Lemma kl_compose_script ts topics : keeps_ledger (compose_script cfg W ts topics).
Proof. unfold compose_script. auto using kl_compose_loop with prog. Qed.

Lemma nonempty_closing : nonempty (closing cfg) = true.
Proof. reflexivity. Qed.

End Script.

(** C5.  When the random source answers its four draws, rendering returns
    the template of lines 121-130 filled with the guest, the host phrases
    and the sector the draws select, and [generate_conversation] returns
    that text; every such text carries the first 100 characters of the
    topic's summary, cut at that length whatever the text.  Whatever the
    random source does, [generate_conversation] returns: the rendered
    exchange, or, when rendering raises, the fallback sentence made of the
    title and of the same 100 characters.  So the script gets one exchange
    for every topic, in order, and rendered exchanges only when the random
    source answers. *)
Theorem generate_conversation_never_drops (W : World) (topic : Topic) (st : State) :
  (forall r0 r1 r2 r3 : nat,
     random_answer W (ticks st) = Ok r0 ->
     random_answer W (ticks st + 1) = Ok r1 ->
     random_answer W (ticks st + 2) = Ok r2 ->
     random_answer W (ticks st + 3) = Ok r3 ->
     exists guest host_intro host_response sector st',
       AI_GUESTS !! (r0 mod 5) = Some guest /\
       host_intros !! (r1 mod 5) = Some host_intro /\
       host_responses !! (r2 mod 5) = Some host_response /\
       sectors !! (r3 mod 5) = Some sector /\
       render_conversation W topic st =
         (Ok (conversation_text topic guest host_intro host_response sector), st') /\
       generate_conversation W topic st =
         (Ok (conversation_text topic guest host_intro host_response sector), st')) /\
  (forall guest host_intro host_response sector,
     exists before after,
       conversation_text topic guest host_intro host_response sector =
         before +:+ "The article mentions " +:+
         str_upto 100 (summary topic) +:+ "... " +:+ after) /\
  (exists conversation st',
     generate_conversation W topic st = (Ok conversation, st') /\
     ((render_conversation W topic st = (Ok conversation, st') /\
       rendered_exchange topic conversation /\
       exists before after,
         conversation =
           before +:+ "The article mentions " +:+
           str_upto 100 (summary topic) +:+ "... " +:+ after) \/
      (exists e,
         render_conversation W topic st = (Raise e, st') /\
         conversation =
           NL +:+ "Podcast Topic: " +:+ title topic +:+ NL +:+
           "Guest: Let me share my thoughts on this topic. " +:+
           str_upto 100 (summary topic) +:+ "..."))) /\
  (exists rest, summary topic = str_upto 100 (summary topic) +:+ rest) /\
  String.length (str_upto 100 (summary topic)) = Nat.min 100 (String.length (summary topic)) /\
  (forall (topics : list Topic) (episode_content : string) (st0 : State),
     exists conversations st',
       compose_loop W topics episode_content st0 =
         (Ok (episode_content +:+ join (block <$> conversations)), st') /\
       Forall2 exchange_of topics conversations) /\
  (forall (topics : list Topic) (episode_content : string) (st0 : State),
     (forall n, exists r, random_answer W n = Ok r) ->
     exists conversations st',
       compose_loop W topics episode_content st0 =
         (Ok (episode_content +:+ join (block <$> conversations)), st') /\
       Forall2 rendered_exchange topics conversations).
Proof.
  split_and!.
  - intros r0 r1 r2 r3 H0 H1 H2 H3.
    destruct (render_conversation_answers W topic st r0 r1 r2 r3 H0 H1 H2 H3)
      as (guest & hi & hr & sec & Hg & Hi & Hr & Hs & Hrun).
    exists guest, hi, hr, sec. eexists.
    split_and!; [exact Hg | exact Hi | exact Hr | exact Hs | exact Hrun |].
    unfold generate_conversation. now rewrite (try_ok _ _ _ _ _ Hrun).
  - intros guest hi hr sec. apply conversation_text_embeds.
  - destruct (generate_conversation_run W topic st) as [(c & st' & Hr & Hg)|(e & st' & Hr & Hg)].
    + exists c, st'. split; [exact Hg|]. left. split; [exact Hr|].
      pose proof (render_conversation_ok W topic st st' c Hr) as Hrendered.
      split; [exact Hrendered|].
      destruct Hrendered as (guest & hi & hr & sec & _ & _ & _ & _ & ->).
      apply conversation_text_embeds.
    + exists (fallback_conversation topic), st'. split; [exact Hg|]. right. now exists e.
  - apply str_upto_prefix.
  - apply length_str_upto.
  - intros topics acc st0. apply compose_loop_run.
  - intros topics acc st0 Hanswers. now apply compose_loop_rendered.
Qed.

(** With the random source of [quiet_world], whose answers to the four
    draws are 0, 7, 14 and 21, the exchange is the template with the first
    guest, the third host question, the fifth host reply and the second
    sector; with a random source that raises, it is the fallback sentence. *)
Lemma generate_conversation_never_drops_witness :
  (exists st',
     generate_conversation quiet_world fallback_topic initial_state =
       (Ok (conversation_text fallback_topic
              {| name := "Dr. Nova"; style := "formal";
                 intro := "As an AI researcher, I can tell you..." |}
              "I'd love to hear your perspective on this."
              "That's quite insightful."
              "education"), st')) /\
  (exists st',
     generate_conversation broken_random_world fallback_topic initial_state =
       (Ok (fallback_conversation fallback_topic), st')).
Proof.
  split.
  - destruct (generate_conversation_never_drops quiet_world fallback_topic initial_state)
      as (Hrendered & _).
    destruct (Hrendered 0 7 14 21 eq_refl eq_refl eq_refl eq_refl)
      as (guest & hi & hr & sec & st' & Hg & Hi & Hr & Hs & _ & Hrun).
    cbn in Hg, Hi, Hr, Hs.
    injection Hg as <-. injection Hi as <-. injection Hr as <-. injection Hs as <-.
    exists st'. exact Hrun.
  - destruct (generate_conversation_never_drops broken_random_world fallback_topic
                initial_state) as (_ & _ & (c & st' & Hg & [[Hr _]|(e & _ & ->)]) & _).
    + vm_compute in Hr. discriminate Hr.
    + exists st'. exact Hg.
Defined.

(** ** text_to_speech and upload_to_gcs *)

Section Adapters.
Variable cfg : Config.
Variable W : World.

Lemma text_to_speech_skipped (text : string) (filename : option string) (st : State) :
  truthy (ELEVENLABS_API_KEY cfg) = false ->
  text_to_speech cfg W text filename st = (Ok "audio_generation_skipped.mp3", st).
Proof.
  unfold text_to_speech, truthy. destruct (ELEVENLABS_API_KEY cfg) as [key|]; [|reflexivity].
  now intros ->.
Qed.

(** With a key and a destination: the file name when both calls succeed,
    the second sentinel as soon as one of them raises. *)
Lemma text_to_speech_keyed (text filename : string) (st : State) :
  truthy (ELEVENLABS_API_KEY cfg) = true ->
  exists st',
    text_to_speech cfg W text (Some filename) st =
      (Ok match elevenlabs_generate W (ticks st) text (VOICE_NAME cfg) with
          | Ok audio =>
              match elevenlabs_save W (S (ticks st)) audio filename with
              | Ok _ => filename
              | Raise _ => "audio_generation_failed.mp3"
              end
          | Raise _ => "audio_generation_failed.mp3"
          end, st') /\
    podcast_episodes st' = podcast_episodes st.
Proof.
  unfold text_to_speech, truthy. destruct (ELEVENLABS_API_KEY cfg) as [key|]; [|discriminate].
  intros ->. unfold try_except, bind, call, ret. cbn.
  destruct (elevenlabs_generate W (ticks st) text (VOICE_NAME cfg)) as [audio|e]; cbn.
  - destruct (elevenlabs_save W (S (ticks st)) audio filename) as [[]|e]; cbn; eauto.
  - eauto.
Qed.

Lemma nr_text_to_speech text filename : never_raises (text_to_speech cfg W text filename).
Proof.
  unfold text_to_speech. repeat case_match; auto 10 with prog.
Qed.

Lemma kl_text_to_speech text filename : keeps_ledger (text_to_speech cfg W text filename).
Proof.
  unfold text_to_speech. repeat case_match; auto 10 with prog.
Qed.

Lemma upload_to_gcs_unset (bucket_name : option string) (src dst : string) (st : State) :
  truthy bucket_name = false ->
  upload_to_gcs W bucket_name src dst st = (Ok None, st).
Proof.
  unfold upload_to_gcs, truthy. destruct bucket_name as [bucket|]; [|reflexivity].
  now intros ->.
Qed.

(** With a bucket, a source file that is not there ends the upload before
    any call is made. *)
Lemma upload_to_gcs_missing (bucket src dst : string) (st : State) :
  file_exists src st = false ->
  upload_to_gcs W (Some bucket) src dst st = (Ok None, st).
Proof.
  intros Hf. unfold upload_to_gcs. destruct (nonempty bucket); [|reflexivity].
  unfold try_except, bind, open_file. now rewrite Hf.
Qed.

Lemma upload_to_gcs_set (bucket src dst : string) (st : State) :
  nonempty bucket = true ->
  file_exists src st = true ->
  upload_to_gcs W (Some bucket) src dst st =
    (Ok match storage_upload W (ticks st) bucket src dst with
        | Ok public_url => Some public_url
        | Raise _ => None
        end,
     called (Some (Upload bucket src dst)) st).
Proof.
  intros Hb Hf. unfold upload_to_gcs. rewrite Hb.
  unfold try_except, bind, open_file, call, ret. rewrite Hf.
  now destruct (storage_upload W (ticks st) bucket src dst).
Qed.

Lemma nr_upload_to_gcs bucket_name src dst : never_raises (upload_to_gcs W bucket_name src dst).
Proof. unfold upload_to_gcs. repeat case_match; auto 10 with prog. Qed.

Lemma kl_upload_to_gcs bucket_name src dst : keeps_ledger (upload_to_gcs W bucket_name src dst).
Proof. unfold upload_to_gcs. repeat case_match; auto 10 with prog. Qed.

Lemma nr_publish_audio ts fn : never_raises (publish_audio cfg W ts fn).
Proof. unfold publish_audio. case_match; auto using nr_upload_to_gcs with prog. Qed.

Lemma kl_publish_audio ts fn : keeps_ledger (publish_audio cfg W ts fn).
Proof. unfold publish_audio. case_match; auto using kl_upload_to_gcs with prog. Qed.

Lemma publish_audio_missing (ts fn : string) (st : State) :
  file_exists fn st = false -> publish_audio cfg W ts fn st = (Ok None, st).
Proof.
  intros Hf. unfold publish_audio. destruct (truthy (GCS_BUCKET_NAME cfg)); [|reflexivity].
  destruct (GCS_BUCKET_NAME cfg) as [bucket|]; [|reflexivity].
  now apply upload_to_gcs_missing.
Qed.

End Adapters.

(** ** generate_rss_feed *)

Section Feed.
Variable cfg : Config.
Variable W : World.

Lemma nr_generate_rss_feed episodes : never_raises (generate_rss_feed cfg W episodes).
Proof. unfold generate_rss_feed. auto with prog. Qed.

Lemma kl_build_feed episodes : keeps_ledger (build_feed cfg W episodes).
Proof. unfold build_feed. auto 10 with prog. Qed.

Lemma kl_generate_rss_feed episodes : keeps_ledger (generate_rss_feed cfg W episodes).
Proof.
  unfold generate_rss_feed. apply kl_try; [|auto with prog].
  apply kl_bind; [apply kl_build_feed|]. intros doc.
  apply kl_bind; [apply kl_call|]. intros _.
  case_match; auto using kl_upload_to_gcs with prog.
Qed.

Lemma generate_rss_feed_run (episodes : list Episode) (st : State) :
  exists st',
    generate_rss_feed cfg W episodes st = (Ok tt, st') /\
    podcast_episodes st' = podcast_episodes st.
Proof.
  destruct (nr_run _ (nr_generate_rss_feed episodes) st) as ([] & st' & Hrun).
  exists st'. split; [exact Hrun|].
  pose proof (kl_generate_rss_feed episodes st) as Hkl. now rewrite Hrun in Hkl.
Qed.

(** No datetime of the program passes feedgen's check. *)
Lemma feedgen_date_naive (d : datetime) :
  feedgen_date d = Raise (PyError "ValueError" "Datetime object has no timezone info").
Proof. reflexivity. Qed.

Lemma feed_entry_raises (episode : Episode) : exists e, feed_entry episode = Raise e.
Proof.
  unfold feed_entry. destruct (fromisoformat (created_at episode)) as [d|e]; [|now exists e].
  rewrite feedgen_date_naive. now eexists.
Qed.

(** The [created_at] a run stores parses at line 203; it is the datetime
    parsed that [fe.pubDate] refuses. *)
Lemma feed_entry_naive (episode : Episode) (d : datetime) :
  valid d = true -> created_at episode = isoformat d ->
  fromisoformat (created_at episode) = Ok d /\
  feed_entry episode = Raise (PyError "ValueError" "Datetime object has no timezone info").
Proof.
  intros Hv Hc. unfold feed_entry. rewrite Hc, fromisoformat_isoformat by exact Hv.
  split; reflexivity.
Qed.

(** Line 194 ends the set-up of the feed, after the clock was read. *)
Lemma build_feed_raises (episodes : list Episode) (st : State) :
  build_feed cfg W episodes st =
    (Raise (PyError "ValueError" "Datetime object has no timezone info"), called None st).
Proof. reflexivity. Qed.

Lemma generate_rss_feed_skips (episodes : list Episode) (st : State) :
  generate_rss_feed cfg W episodes st = (Ok tt, called None st).
Proof.
  unfold generate_rss_feed.
  rewrite (try_raise _ _ _ _ _ (bind_raise _ _ _ _ _ (build_feed_raises episodes st))).
  reflexivity.
Qed.

End Feed.

(** ** generate_podcast *)

Section Orchestrator.
Variable cfg : Config.
Variable W : World.

Lemma nonempty_isoformat (d : datetime) : nonempty (isoformat d) = true.
Proof. reflexivity. Qed.

Lemma nonempty_path_join (a b : string) : nonempty b = true -> nonempty (path_join a b) = true.
Proof.
  intros Hb. unfold path_join. destruct (starts_with_slash b); [exact Hb|].
  destruct (negb (nonempty a) || ends_with_slash a); auto using nonempty_append_r.
Qed.

Lemma nonempty_final_url_of (audio_url : option string) (audio_filename : string) :
  nonempty audio_filename = true -> nonempty (final_url_of audio_url audio_filename) = true.
Proof.
  intros Hf. unfold final_url_of. destruct audio_url as [u|]; [|exact Hf].
  now destruct (nonempty u) eqn:Hu.
Qed.

Lemma text_to_speech_result (text filename path : string) (st st' : State) :
  text_to_speech cfg W text (Some filename) st = (Ok path, st') ->
  path = "audio_generation_skipped.mp3" \/ path = "audio_generation_failed.mp3" \/
  path = filename.
Proof.
  intros Hrun. destruct (truthy (ELEVENLABS_API_KEY cfg)) eqn:Hkey.
  - destruct (text_to_speech_keyed cfg W text filename st Hkey) as (st1 & Hk & _).
    rewrite Hk in Hrun. injection Hrun as <- _. repeat case_match; auto.
  - rewrite text_to_speech_skipped in Hrun by exact Hkey. injection Hrun as <- _. auto.
Qed.

Lemma last_ledger_append (episodes : list Episode) (episode_data : Episode) :
  last (ledger_append episodes episode_data) = Some episode_data.
Proof.
  rewrite ledger_append_keep_last. unfold keep_last.
  rewrite length_app. cbn [length].
  rewrite drop_app_le by lia. apply last_snoc.
Qed.

(** Lines 243-274 always answer: the response carries the text, the public
    URL or else the local path, and the ledger gains the episode. *)
Lemma finish_episode_run (timestamp episode_content audio_filename : string) (st : State) :
  exists audio_url st1 answered st',
    publish_audio cfg W timestamp audio_filename st = (Ok audio_url, st1) /\
    finish_episode cfg W timestamp episode_content audio_filename st =
      (Ok {| resp_podcast_text := episode_content;
             resp_audio_file := final_url_of audio_url audio_filename;
             resp_created_at := isoformat answered |}, st') /\
    podcast_episodes st' =
      ledger_append (podcast_episodes st)
        {| podcast_text := episode_content;
           audio_file := audio_filename;
           audio_url := final_url_of audio_url audio_filename;
           timestamp := timestamp;
           created_at := isoformat (clock W (ticks st1)) |}.
Proof.
  destruct (nr_run _ (nr_publish_audio cfg W timestamp audio_filename) st)
    as (audio_url & st1 & Hpub).
  pose proof (kl_publish_audio cfg W timestamp audio_filename st) as Hkl.
  rewrite Hpub in Hkl. cbn [snd] in Hkl.
  exists audio_url, st1. unfold finish_episode.
  rewrite (bind_ok _ _ _ _ _ Hpub). cbv zeta.
  unfold bind at 1. unfold datetime_now at 1. unfold call at 1.
  unfold bind at 1. unfold get_episodes at 1. cbn [podcast_episodes ticks trace files called].
  unfold bind at 1. unfold set_episodes at 1. cbn [podcast_episodes ticks trace files called].
  unfold bind at 1. unfold get_episodes at 1. cbn [podcast_episodes ticks trace files called].
  match goal with |- context [bind (generate_rss_feed cfg W ?eps) _ ?s] =>
    destruct (generate_rss_feed_run cfg W eps s) as (st2 & Hfeed & Hl2) end.
  rewrite (bind_ok _ _ _ _ _ Hfeed).
  unfold bind, datetime_now, call, ret.
  eexists _, _. split; [exact Hpub|]. split; [reflexivity|].
  cbn [podcast_episodes called]. rewrite Hl2. cbn [podcast_episodes]. now rewrite Hkl.
Qed.

(** A run whose fetch returns goes through every step and answers. *)
Lemma generate_podcast_body_run (st : State) (topics : list Topic) (st1 : State) :
  fetch_tech_news W st = (Ok topics, st1) ->
  let timestamp := strftime (clock W (ticks st1)) in
  exists conversations st2 audio_filename st3 audio_url st4 answered st',
    let episode_content :=
      opening cfg timestamp +:+ join (block <$> conversations) +:+ closing cfg in
    Forall2 exchange_of topics conversations /\
    compose_script cfg W timestamp topics (snd (datetime_now W st1)) =
      (Ok episode_content, st2) /\
    text_to_speech cfg W episode_content
      (Some (path_join (PODCAST_DIR cfg) ("podcast_episode_" +:+ timestamp +:+ ".mp3"))) st2 =
      (Ok audio_filename, st3) /\
    publish_audio cfg W timestamp audio_filename st3 = (Ok audio_url, st4) /\
    generate_podcast_body cfg W st =
      (Ok {| resp_podcast_text := episode_content;
             resp_audio_file := final_url_of audio_url audio_filename;
             resp_created_at := isoformat answered |}, st') /\
    podcast_episodes st' =
      ledger_append (podcast_episodes st)
        {| podcast_text := episode_content;
           audio_file := audio_filename;
           audio_url := final_url_of audio_url audio_filename;
           timestamp := timestamp;
           created_at := isoformat (clock W (ticks st4)) |}.
Proof.
  intros Hfetch timestamp.
  assert (topics <> []) as Hne.
  { unfold fetch_tech_news in Hfetch. destruct (gather_news_run W st) as [agg Hg].
    rewrite (bind_ok _ _ _ _ _ Hg) in Hfetch.
    eapply select_news_cases, Hfetch. }
  pose proof (fetch_tech_news_frame W st) as [Hl1 _]. rewrite Hfetch in Hl1. cbn [snd] in Hl1.
  destruct (compose_script_run cfg W timestamp topics (snd (datetime_now W st1)))
    as (cs & st2 & Hcompose & Hall).
  pose proof (kl_compose_script cfg W timestamp topics (snd (datetime_now W st1))) as Hl2.
  rewrite Hcompose in Hl2. cbn [snd datetime_now call called podcast_episodes] in Hl2.
  set (content := opening cfg timestamp +:+ join (block <$> cs) +:+ closing cfg) in *.
  set (path := path_join (PODCAST_DIR cfg) ("podcast_episode_" +:+ timestamp +:+ ".mp3")).
  destruct (nr_run _ (nr_text_to_speech cfg W content (Some path)) st2) as (fn & st3 & Htts).
  pose proof (kl_text_to_speech cfg W content (Some path) st2) as Hl3.
  rewrite Htts in Hl3. cbn [snd] in Hl3.
  destruct (finish_episode_run timestamp content fn st3)
    as (audio_url & st4 & answered & st' & Hpub & Hfin & Hledger).
  exists cs, st2, fn, st3, audio_url, st4, answered, st'. cbv zeta. fold content. fold path.
  repeat split; try assumption.
  - unfold generate_podcast_body. rewrite (bind_ok _ _ _ _ _ Hfetch).
    destruct topics as [|topic rest]; [congruence|].
    unfold bind at 1. unfold datetime_now at 1. unfold call at 1.
    fold timestamp. fold path.
    change (compose_script cfg W timestamp (topic :: rest) (snd (datetime_now W st1)) =
              (Ok content, st2)) in Hcompose.
    unfold datetime_now, call in Hcompose. cbn [snd] in Hcompose.
    rewrite (bind_ok _ _ _ _ _ Hcompose), (bind_ok _ _ _ _ _ Htts). exact Hfin.
  - rewrite Hledger, Hl3, Hl2, Hl1. reflexivity.
Qed.

(** The body of the [try] raises only when [fetch_tech_news] does. *)
Lemma generate_podcast_body_raise (st : State) (e : exn) (st1 : State) :
  generate_podcast_body cfg W st = (Raise e, st1) ->
  fetch_tech_news W st = (Raise e, st1).
Proof.
  intros Hbody. destruct (fetch_tech_news W st) as [[topics|e'] st1'] eqn:Hfetch.
  - destruct (generate_podcast_body_run st topics st1' Hfetch)
      as (? & ? & ? & ? & ? & ? & ? & ? & _ & _ & _ & _ & Hok & _).
    rewrite Hok in Hbody. discriminate Hbody.
  - unfold generate_podcast_body in Hbody.
    rewrite (bind_raise _ _ _ _ _ Hfetch) in Hbody. now injection Hbody as -> ->.
Qed.

End Orchestrator.

(** ** The claims about the orchestrator, the ledger and the endpoints *)

(** C1.  [generate_podcast] never raises: for every configuration, world
    and state it returns a record whose text, artifact reference and
    creation time are non-empty strings; and when an exception leaves the
    body of its [try], the record is the fixed one, with text
    "Error generating podcast." and artifact reference "error.mp3". *)
Theorem generate_podcast_always_answers (cfg : Config) (W : World) (st : State) :
  exists r st',
    generate_podcast cfg W st = (Ok r, st') /\
    nonempty (resp_podcast_text r) = true /\
    nonempty (resp_audio_file r) = true /\
    nonempty (resp_created_at r) = true /\
    (forall e st1,
       generate_podcast_body cfg W st = (Raise e, st1) ->
       resp_podcast_text r = "Error generating podcast." /\
       resp_audio_file r = "error.mp3" /\
       resp_created_at r = isoformat (clock W (ticks st1))).
Proof.
  unfold generate_podcast, try_except.
  destruct (generate_podcast_body cfg W st) as [[r|e] st1] eqn:Hbody.
  - exists r, st1. split; [reflexivity|].
    destruct (fetch_tech_news W st) as [[topics|e] st0] eqn:Hfetch.
    + destruct (generate_podcast_body_run cfg W st topics st0 Hfetch)
        as (cs & st2 & fn & st3 & url & st4 & answered & st' & _ & _ & Htts & _ & Hok & _).
      rewrite Hok in Hbody. injection Hbody as <- _. cbn [resp_podcast_text resp_audio_file resp_created_at].
      split_and!; [| | apply nonempty_isoformat | discriminate].
      * rewrite <- append_assoc. apply nonempty_append_r, nonempty_closing.
      * apply nonempty_final_url_of.
        destruct (text_to_speech_result _ _ _ _ _ _ _ Htts) as [-> | [-> | ->]];
          [reflexivity | reflexivity |].
        apply nonempty_path_join. reflexivity.
    + unfold generate_podcast_body in Hbody.
      rewrite (bind_raise _ _ _ _ _ Hfetch) in Hbody. discriminate Hbody.
  - eexists _, _. unfold bind, datetime_now, call, ret. split; [reflexivity|].
    cbn [degraded_response resp_podcast_text resp_audio_file resp_created_at].
    split_and!; [reflexivity | reflexivity | apply nonempty_isoformat|].
    intros e' st1' [= _ <-]. split_and!; reflexivity.
Qed.

(** With a random source that raises while six items wait to be sampled,
    the answer is the fixed record. *)
Lemma generate_podcast_always_answers_witness :
  exists st',
    generate_podcast sample_config broken_random_world initial_state =
      (Ok (degraded_response sample_time), st').
Proof.
  destruct (generate_podcast_always_answers sample_config broken_random_world initial_state)
    as (r & st' & Hrun & _ & _ & _ & Hdegraded).
  destruct (generate_podcast_body sample_config broken_random_world initial_state)
    as [[r'|e] st1] eqn:Hbody; [vm_compute in Hbody; discriminate Hbody|].
  destruct (Hdegraded e st1 eq_refl) as (Htext & Haudio & Hcreated).
  exists st'. rewrite Hrun. destruct r. cbn in Htext, Haudio, Hcreated. now subst.
Defined.

(** C2.  After any number of appends to an empty ledger, the ledger is the
    list of the appended records without all but its last ten: it has
    [min N 10] records, in the order they were appended; after eleven
    appends its first record is the second one appended.  Every run that
    reaches lines 261-265 changes the ledger by exactly one such append. *)
Theorem ledger_keeps_last_ten (records : list Episode) :
  fold_left ledger_append records [] = drop (length records - 10) records /\
  length (fold_left ledger_append records []) = Nat.min (length records) 10 /\
  (forall i, fold_left ledger_append records [] !! i =
             records !! (length records - 10 + i)) /\
  (forall r1 r2 r3 r4 r5 r6 r7 r8 r9 r10 r11 : Episode,
     head (fold_left ledger_append [r1; r2; r3; r4; r5; r6; r7; r8; r9; r10; r11] []) =
       Some r2) /\
  (forall cfg W ts episode_content audio_filename st,
     exists episode_data,
       podcast_episodes
         (snd (finish_episode cfg W ts episode_content audio_filename st)) =
         ledger_append (podcast_episodes st) episode_data /\
       podcast_text episode_data = episode_content /\
       timestamp episode_data = ts).
Proof.
  assert (fold_left ledger_append records [] = drop (length records - 10) records) as Heq.
  { rewrite ledger_appends by (simpl; lia). reflexivity. }
  split_and!.
  - exact Heq.
  - rewrite Heq, length_drop. lia.
  - intros i. now rewrite Heq, lookup_drop.
  - intros. now rewrite ledger_appends by (simpl; lia).
  - intros cfg W ts content fn st.
    destruct (finish_episode_run cfg W ts content fn st)
      as (url & st1 & answered & st' & _ & Hrun & Hledger).
    eexists. rewrite Hrun. cbn [snd]. split; [exact Hledger|]. split; reflexivity.
Qed.

(** C4, on the code as it is.  With an empty ledger the 404 raised at line
    303 is caught by the handler of line 311 of the same function, and the
    caller receives the 500 of line 313. *)
Theorem get_latest_episode_empty_ledger (n : nat) (events : list Event)
    (paths : list string) :
  get_latest_episode
    {| ticks := n; podcast_episodes := []; trace := events; files := paths |} =
    (Raise (HTTPException 500 "Internal server error: 404: No episodes found"),
     {| ticks := n; podcast_episodes := []; trace := events; files := paths |}).
Proof. reflexivity. Qed.

Lemma Forall_keep_last {A} (P : A -> Prop) (n : nat) (l : list A) :
  Forall P l -> Forall P (keep_last n l).
Proof. apply Forall_drop. Qed.

Lemma Forall_ledger_append (P : Episode -> Prop) (l : list Episode) (x : Episode) :
  Forall P l -> P x -> Forall P (ledger_append l x).
Proof.
  intros Hl Hx. rewrite ledger_append_keep_last.
  apply Forall_keep_last, Forall_app. split; [exact Hl | now constructor].
Qed.

Lemma opening_not_error_text (cfg : Config) (ts rest : string) :
  opening cfg ts +:+ rest <> "Error generating podcast.".
Proof. discriminate. Qed.

(** The only document [generate_rss_feed] hands to the writer lists the
    episodes it was given. *)
Lemma generate_rss_feed_trace (cfg : Config) (W : World) (episodes : list Episode)
    (st : State) (path : string) (doc : Feed) :
  WriteFeed path doc ∈ trace (snd (generate_rss_feed cfg W episodes st)) ->
  WriteFeed path doc ∈ trace st \/ feed_entries episodes = Ok (fg_entries doc).
Proof. rewrite generate_rss_feed_skips. now left. Qed.

(** What a run does to the ledger: nothing, or one append of a record
    whose text starts with the opening and whose [created_at] is the ISO
    text of a clock reading. *)
Lemma generate_podcast_ledger (cfg : Config) (W : World) (st : State) :
  podcast_episodes (snd (generate_podcast cfg W st)) = podcast_episodes st \/
  exists ts rest audio_filename public_url n,
    podcast_episodes (snd (generate_podcast cfg W st)) =
      ledger_append (podcast_episodes st)
        {| podcast_text := opening cfg ts +:+ rest;
           audio_file := audio_filename;
           audio_url := final_url_of public_url audio_filename;
           timestamp := ts;
           created_at := isoformat (clock W n) |}.
Proof.
  pose proof (fetch_tech_news_frame W st) as [Hledger _].
  unfold generate_podcast, try_except.
  destruct (generate_podcast_body cfg W st) as [[r|e] st1] eqn:Hbody.
  - cbn [snd]. destruct (fetch_tech_news W st) as [[topics|e] st0] eqn:Hfetch.
    + destruct (generate_podcast_body_run cfg W st topics st0 Hfetch)
        as (cs & st2 & fn & st3 & url & st4 & answered & st' & _ & _ & _ & _ & Hok & Hl).
      rewrite Hok in Hbody. injection Hbody as _ <-. right.
      eexists _, _, fn, url, _. exact Hl.
    + unfold generate_podcast_body in Hbody.
      rewrite (bind_raise _ _ _ _ _ Hfetch) in Hbody. discriminate Hbody.
  - left. apply generate_podcast_body_raise in Hbody as Hfetch.
    rewrite Hfetch in Hledger. cbn [snd] in Hledger.
    unfold bind, datetime_now, call, ret. cbn [snd podcast_episodes]. exact Hledger.
Qed.

(** With a clock that reads valid datetimes, every record a run stores has
    a [created_at] that parses. *)
Lemma generate_podcast_keeps_iso (cfg : Config) (W : World) (st : State) :
  (forall n, valid (clock W n) = true) ->
  Forall (fun ep => exists d, valid d = true /\ created_at ep = isoformat d)
         (podcast_episodes st) ->
  Forall (fun ep => exists d, valid d = true /\ created_at ep = isoformat d)
         (podcast_episodes (snd (generate_podcast cfg W st))).
Proof.
  intros Hclock Hinv.
  destruct (generate_podcast_ledger cfg W st) as [-> | (ts & rest & fn & url & n & ->)];
    [exact Hinv|].
  apply Forall_ledger_append; [exact Hinv|]. exists (clock W n). split; [apply Hclock | reflexivity].
Qed.

(** C10.  When an exception leaves the body of the [try], the degraded
    record is returned and the ledger is what it was; the only calls the
    run has made are the three feed requests, and no file was written.
    No run puts a record with the error text into the ledger, and every
    document handed to the feed writer lists the episodes it was given,
    which line 268 takes from the ledger. *)
Theorem failed_run_leaves_ledger (cfg : Config) (W : World) (st : State) :
  (forall e st1,
     generate_podcast_body cfg W st = (Raise e, st1) ->
     exists st',
       generate_podcast cfg W st = (Ok (degraded_response (clock W (ticks st1))), st') /\
       podcast_episodes st' = podcast_episodes st /\
       trace st' = trace st ++ (FeedParse <$> news_sources) /\
       files st' = files st) /\
  (Forall (fun ep => podcast_text ep <> "Error generating podcast.") (podcast_episodes st) ->
   Forall (fun ep => podcast_text ep <> "Error generating podcast.")
          (podcast_episodes (snd (generate_podcast cfg W st)))) /\
  (forall episodes st0 path doc,
     WriteFeed path doc ∈ trace (snd (generate_rss_feed cfg W episodes st0)) ->
     WriteFeed path doc ∈ trace st0 \/ feed_entries episodes = Ok (fg_entries doc)).
Proof.
  pose proof (fetch_tech_news_frame W st) as (Hledger & Htrace & Hfiles).
  split_and!.
  - intros e st1 Hbody. apply generate_podcast_body_raise in Hbody as Hfetch.
    rewrite Hfetch in Hledger, Htrace, Hfiles. cbn [snd] in Hledger, Htrace, Hfiles.
    unfold generate_podcast. rewrite (try_raise _ _ _ _ _ Hbody).
    unfold bind, datetime_now, call, ret. eexists. split; [reflexivity|].
    cbn [podcast_episodes trace files called]. now split_and!.
  - intros Hinv.
    destruct (generate_podcast_ledger cfg W st) as [-> | (ts & rest & fn & url & n & ->)];
      [exact Hinv|].
    apply Forall_ledger_append; [exact Hinv|]. apply opening_not_error_text.
  - intros episodes st0 path doc. apply generate_rss_feed_trace.
Qed.

(** A run in which the random source raises: ledger and trace afterwards. *)
Lemma failed_run_leaves_ledger_witness :
  exists st',
    generate_podcast sample_config broken_random_world initial_state =
      (Ok (degraded_response sample_time), st') /\
    podcast_episodes st' = [] /\
    trace st' = FeedParse <$> news_sources /\
    files st' = [].
Proof.
  destruct (failed_run_leaves_ledger sample_config broken_random_world initial_state)
    as (Hfail & _ & _).
  destruct (generate_podcast_body sample_config broken_random_world initial_state)
    as [[r'|e] st1] eqn:Hbody; [vm_compute in Hbody; discriminate Hbody|].
  destruct (Hfail e st1 eq_refl) as (st' & Hrun & Hledger & Htrace & Hfiles).
  exists st'. split_and!; [exact Hrun | exact Hledger | exact Htrace | exact Hfiles].
Defined.

(** ** The claims about synthesis, publication, the feed and the script *)

Lemma ok_pair_inj {A} (a b : A) (s t : State) : (Ok a, s) = (Ok b, t) -> a = b /\ s = t.
Proof. now intros [= -> ->]. Qed.

(** C6 as stated does not hold.  Take a run in which the feeds and the
    random source answer, a credential and a bucket are configured, the
    synthesis call raises, a local file has the sentinel's name and storage
    accepts its upload: the run answers with the public URL, not with the
    sentinel. *)
Lemma synthesis_failure_counterexample :
  ~ (forall cfg W st r st',
       truthy (ELEVENLABS_API_KEY cfg) = true ->
       (forall n, exists k, random_answer W n = Ok k) ->
       (forall n text voice, exists e, elevenlabs_generate W n text voice = Raise e) ->
       generate_podcast cfg W st = (Ok r, st') ->
       resp_audio_file r = "audio_generation_failed.mp3").
Proof.
  intros Hclaim.
  destruct (generate_podcast keyed_config uploading_world stale_file_state)
    as [[r|e] st'] eqn:Hrun; [|vm_compute in Hrun; discriminate Hrun].
  specialize (Hclaim keyed_config uploading_world stale_file_state r st' eq_refl).
  assert (resp_audio_file r = "audio_generation_failed.mp3") as Hbad.
  { apply Hclaim; [| |exact Hrun]; intros; now eexists. }
  vm_compute in Hrun. injection Hrun as <- _. discriminate Hbad.
Qed.

(** C6, amended.  Without a credential [text_to_speech] returns the first
    sentinel and makes no call at all; with one, it returns the second
    sentinel as soon as the synthesis call or the saving raises; it never
    raises.  A run whose synthesis step returned the second sentinel still
    answers with a non-empty text; its artifact reference is the sentinel
    when publication gave [None] or an empty URL, which is the case
    whenever no local file has the sentinel's name, and the public URL
    otherwise. *)
Theorem text_to_speech_sentinels (cfg : Config) (W : World) :
  (forall text filename st,
     truthy (ELEVENLABS_API_KEY cfg) = false ->
     text_to_speech cfg W text filename st = (Ok "audio_generation_skipped.mp3", st)) /\
  (forall text filename st,
     truthy (ELEVENLABS_API_KEY cfg) = true ->
     (forall audio,
        elevenlabs_generate W (ticks st) text (VOICE_NAME cfg) = Ok audio ->
        exists e, elevenlabs_save W (S (ticks st)) audio filename = Raise e) ->
     exists st',
       text_to_speech cfg W text (Some filename) st =
         (Ok "audio_generation_failed.mp3", st')) /\
  (forall text filename st,
     exists path st', text_to_speech cfg W text filename st = (Ok path, st')) /\
  (forall st topics st1 conversations st2 st3,
     fetch_tech_news W st = (Ok topics, st1) ->
     let ts := strftime (clock W (ticks st1)) in
     let episode_content :=
       opening cfg ts +:+ join (block <$> conversations) +:+ closing cfg in
     compose_script cfg W ts topics (snd (datetime_now W st1)) = (Ok episode_content, st2) ->
     text_to_speech cfg W episode_content
       (Some (path_join (PODCAST_DIR cfg) ("podcast_episode_" +:+ ts +:+ ".mp3"))) st2 =
       (Ok "audio_generation_failed.mp3", st3) ->
     exists audio_url st4 r st',
       publish_audio cfg W ts "audio_generation_failed.mp3" st3 = (Ok audio_url, st4) /\
       generate_podcast cfg W st = (Ok r, st') /\
       resp_podcast_text r = episode_content /\
       nonempty (resp_podcast_text r) = true /\
       resp_audio_file r =
         match audio_url with
         | Some public_url =>
             if nonempty public_url then public_url else "audio_generation_failed.mp3"
         | None => "audio_generation_failed.mp3"
         end /\
       (file_exists "audio_generation_failed.mp3" st3 = false ->
        resp_audio_file r = "audio_generation_failed.mp3")).
Proof.
  split_and!.
  - apply text_to_speech_skipped.
  - intros text filename st Hkey Hfail.
    destruct (text_to_speech_keyed cfg W text filename st Hkey) as (st' & Hrun & _).
    exists st'. rewrite Hrun.
    destruct (elevenlabs_generate W (ticks st) text (VOICE_NAME cfg)) as [audio|e];
      [|reflexivity].
    destruct (Hfail audio eq_refl) as [e ->]. reflexivity.
  - intros text filename st. apply nr_run, nr_text_to_speech.
  - intros st topics st1 cs st2 st3 Hfetch ts content Hcompose Htts.
    destruct (generate_podcast_body_run cfg W st topics st1 Hfetch)
      as (cs' & st2' & fn & st3' & url & st4 & answered & st' & _ & Hc' & Htts' & Hpub & Hok & _).
    fold ts in Hc', Htts', Hpub, Hok.
    destruct (ok_pair_inj _ _ _ _ (eq_trans (eq_sym Hcompose) Hc')) as [Hcontent <-].
    fold content in Hcontent. rewrite <- Hcontent in Htts', Hok.
    destruct (ok_pair_inj _ _ _ _ (eq_trans (eq_sym Htts) Htts')) as [<- <-].
    eexists url, st4, _, st'. split; [exact Hpub|]. split.
    { unfold generate_podcast. now rewrite (try_ok _ _ _ _ _ Hok). }
    split_and!; [reflexivity | | reflexivity |].
    + cbn [resp_podcast_text]. unfold content. rewrite <- append_assoc.
      apply nonempty_append_r, nonempty_closing.
    + intros Hmissing. rewrite (publish_audio_missing cfg W _ _ _ Hmissing) in Hpub.
      now injection Hpub as <- _.
Qed.

(** Synthesis is down and no bucket is configured: the sentinel is the
    artifact reference of the run's answer. *)
Lemma text_to_speech_sentinels_witness :
  exists r st',
    generate_podcast keyed_local_config quiet_world initial_state = (Ok r, st') /\
    nonempty (resp_podcast_text r) = true /\
    resp_audio_file r = "audio_generation_failed.mp3".
Proof.
  set (cfg := keyed_local_config).
  destruct (text_to_speech_sentinels cfg quiet_world) as (_ & _ & _ & Hrun).
  destruct (fetch_tech_news quiet_world initial_state) as [[topics|e] st1] eqn:Hfetch;
    [|vm_compute in Hfetch; discriminate Hfetch].
  destruct (compose_script_run cfg quiet_world (strftime (clock quiet_world (ticks st1)))
              topics (snd (datetime_now quiet_world st1))) as (cs & st2 & Hcompose & _).
  destruct (text_to_speech_keyed cfg quiet_world
              (opening cfg (strftime (clock quiet_world (ticks st1))) +:+
               join (block <$> cs) +:+ closing cfg)
              (path_join (PODCAST_DIR cfg)
                 ("podcast_episode_" +:+ strftime (clock quiet_world (ticks st1)) +:+ ".mp3"))
              st2 eq_refl) as (st3 & Htts & _).
  destruct (Hrun initial_state topics st1 cs st2 st3 Hfetch Hcompose Htts)
    as (url & st4 & r & st' & Hpub & Hgen & _ & Htext & Haudio & _).
  exists r, st'. split_and!; [exact Hgen | exact Htext |].
  rewrite Haudio. unfold publish_audio in Hpub. cbn in Hpub. now injection Hpub as <- _.
Defined.

(** C7.  [upload_to_gcs] returns [None] without any call when no bucket is
    configured, returns [None] when the upload raises or the local file is
    not there, and never raises.  Without a bucket line 244 leaves the
    public URL [None]; whenever publication gave [None], the run's answer
    and the record it appends carry the local artifact path as their
    artifact reference. *)
Theorem upload_to_gcs_nil_falls_back (cfg : Config) (W : World) :
  (forall bucket_name src dst st,
     truthy bucket_name = false ->
     upload_to_gcs W bucket_name src dst st = (Ok None, st)) /\
  (forall bucket src dst st e,
     storage_upload W (ticks st) bucket src dst = Raise e ->
     exists st', upload_to_gcs W (Some bucket) src dst st = (Ok None, st')) /\
  (forall bucket src dst st,
     file_exists src st = false ->
     upload_to_gcs W (Some bucket) src dst st = (Ok None, st)) /\
  (forall bucket_name src dst st,
     exists r st', upload_to_gcs W bucket_name src dst st = (Ok r, st')) /\
  (forall ts fn st,
     truthy (GCS_BUCKET_NAME cfg) = false ->
     publish_audio cfg W ts fn st = (Ok None, st)) /\
  (forall ts episode_content audio_filename st st1,
     publish_audio cfg W ts audio_filename st = (Ok None, st1) ->
     exists r st' episode_data,
       finish_episode cfg W ts episode_content audio_filename st = (Ok r, st') /\
       resp_audio_file r = audio_filename /\
       last (podcast_episodes st') = Some episode_data /\
       audio_url episode_data = audio_filename /\
       audio_file episode_data = audio_filename).
Proof.
  split_and!.
  - intros. now apply upload_to_gcs_unset.
  - intros bucket src dst st e Hraise. destruct (nonempty bucket) eqn:Hb.
    + destruct (file_exists src st) eqn:Hf.
      * rewrite upload_to_gcs_set by assumption. rewrite Hraise. now eexists.
      * exists st. now apply upload_to_gcs_missing.
    + exists st. now apply upload_to_gcs_unset.
  - intros. now apply upload_to_gcs_missing.
  - intros. apply nr_run, nr_upload_to_gcs.
  - intros ts fn st Hb. unfold publish_audio. now rewrite Hb.
  - intros ts content fn st st1 Hpub.
    destruct (finish_episode_run cfg W ts content fn st)
      as (url & st1' & answered & st' & Hpub' & Hrun & Hledger).
    destruct (ok_pair_inj _ _ _ _ (eq_trans (eq_sym Hpub) Hpub')) as [<- <-].
    eexists _, st', _. split; [exact Hrun|]. split; [reflexivity|].
    rewrite Hledger, last_ledger_append. split_and!; reflexivity.
Qed.

(** No bucket is configured: the artifact reference is the local path. *)
Lemma upload_to_gcs_nil_falls_back_witness :
  exists r st' episode_data,
    finish_episode sample_config quiet_world "20240309_080005" "Welcome."
      "audio_generation_skipped.mp3" initial_state = (Ok r, st') /\
    resp_audio_file r = "audio_generation_skipped.mp3" /\
    last (podcast_episodes st') = Some episode_data /\
    audio_url episode_data = "audio_generation_skipped.mp3".
Proof.
  destruct (upload_to_gcs_nil_falls_back sample_config quiet_world)
    as (_ & _ & _ & _ & Hunset & Hnil).
  destruct (Hnil "20240309_080005" "Welcome." "audio_generation_skipped.mp3"
              initial_state initial_state (Hunset _ _ _ eq_refl))
    as (r & st' & episode_data & Hrun & Haudio & Hlast & Hurl & _).
  now exists r, st', episode_data.
Defined.

(** C8, on the code as it is.  Line 194 hands [datetime.now()], a datetime
    without time zone, to [fg.lastBuildDate], which refuses it: the set-up
    of the feed ends there with a [ValueError], before the loop of line 196
    has added any entry, and the handler of line 216 swallows it.  So for
    every ledger, configuration and world [generate_rss_feed] returns with
    no document handed to the writer and no file written; only the clock
    has been read.  Line 203 would be refused in the same way: no episode
    gets its entry, also when its [created_at] parses.  The values lines 198-202 compute for an entry are those
    of [entry_fields], the description being the first 500 characters of
    the text followed by three dots. *)
Theorem generate_rss_feed_produces_nothing (cfg : Config) (W : World)
    (episodes : list Episode) (st : State) :
  build_feed cfg W episodes st =
    (Raise (PyError "ValueError" "Datetime object has no timezone info"), called None st) /\
  generate_rss_feed cfg W episodes st = (Ok tt, called None st) /\
  trace (snd (generate_rss_feed cfg W episodes st)) = trace st /\
  files (snd (generate_rss_feed cfg W episodes st)) = files st /\
  (forall episode, exists e, feed_entry episode = Raise e) /\
  (forall episode d,
     valid d = true -> created_at episode = isoformat d ->
     fromisoformat (created_at episode) = Ok d /\
     feed_entry episode =
       Raise (PyError "ValueError" "Datetime object has no timezone info")) /\
  (forall episode d,
     fe_title (entry_fields episode d) = "Episode " +:+ timestamp episode /\
     fe_id (entry_fields episode d) = audio_url episode /\
     fe_enclosure (entry_fields episode d) = (audio_url episode, 0, "audio/mpeg") /\
     fe_description (entry_fields episode d) =
       str_upto 500 (podcast_text episode) +:+ "...") /\
  generate_rss_feed sample_config quiet_world [sample_episode] initial_state =
    (Ok tt, {| ticks := 1; podcast_episodes := []; trace := []; files := [] |}).
Proof.
  rewrite generate_rss_feed_skips. split_and!; try reflexivity.
  - apply feed_entry_raises.
  - apply feed_entry_naive.
  - intros episode d. split_and!; reflexivity.
Qed.

(** C9.  The script is the opening for the run's timestamp, then one block
    per topic, in the order of the topics, each the topic's exchange and a
    blank line, then the closing; and this is the text a run answers with
    whenever its fetch returns. *)
Theorem compose_script_structure (cfg : Config) (W : World) :
  (forall ts topics st,
     exists conversations st',
       compose_script cfg W ts topics st =
         (Ok (opening cfg ts +:+ join (block <$> conversations) +:+ closing cfg), st') /\
       Forall2 exchange_of topics conversations /\
       length conversations = length topics) /\
  (forall st topics st1,
     fetch_tech_news W st = (Ok topics, st1) ->
     exists conversations r st',
       generate_podcast cfg W st = (Ok r, st') /\
       resp_podcast_text r =
         opening cfg (strftime (clock W (ticks st1))) +:+
         join (block <$> conversations) +:+ closing cfg /\
       Forall2 exchange_of topics conversations) /\
  (forall ts,
     opening cfg ts =
       "Welcome to " +:+ PODCAST_TITLE cfg +:+ ". Episode " +:+ ts +:+ "." +:+ NL +:+
       "Today we'll be discussing the latest in AI and tech news." +:+ NL +:+ NL) /\
  closing cfg =
    NL +:+ "Thanks for listening to this episode of " +:+ PODCAST_TITLE cfg +:+
    ". Join us next time for more AI discussions!".
Proof.
  split_and!; [| |reflexivity|reflexivity].
  - intros ts topics st.
    destruct (compose_script_run cfg W ts topics st) as (cs & st' & Hrun & Hall).
    exists cs, st'. split_and!; [exact Hrun | exact Hall |].
    symmetry. eapply Forall2_length, Hall.
  - intros st topics st1 Hfetch.
    destruct (generate_podcast_body_run cfg W st topics st1 Hfetch)
      as (cs & st2 & fn & st3 & url & st4 & answered & st' & Hall & _ & _ & _ & Hok & _).
    eexists cs, _, st'. split.
    { unfold generate_podcast. now rewrite (try_ok _ _ _ _ _ Hok). }
    split; [reflexivity | exact Hall].
Qed.

(** A run over six fetched items: five blocks between opening and closing. *)
Lemma compose_script_structure_witness :
  exists conversations r st',
    generate_podcast sample_config quiet_world initial_state = (Ok r, st') /\
    resp_podcast_text r =
      opening sample_config (strftime sample_time) +:+
      join (block <$> conversations) +:+ closing sample_config /\
    length conversations = 5.
Proof.
  destruct (compose_script_structure sample_config quiet_world) as (_ & Hrun & _).
  destruct (fetch_tech_news quiet_world initial_state) as [[topics|e] st1] eqn:Hfetch;
    [|vm_compute in Hfetch; discriminate Hfetch].
  destruct (Hrun initial_state topics st1 Hfetch) as (cs & r & st' & Hgen & Htext & Hall).
  exists cs, r, st'. split_and!; [exact Hgen | exact Htext |].
  rewrite <- (Forall2_length _ _ _ Hall).
  vm_compute in Hfetch. now injection Hfetch as <- _.
Defined.

(** * Further properties *)

(** ** The aggregate and the selection *)

Lemma append_entries_app (src : string) (entries : list Entry) : forall news_list,
  append_entries src entries news_list = news_list ++ append_entries src entries [].
Proof.
  induction entries as [|entry rest IH]; intros news_list; cbn [append_entries].
  - now rewrite app_nil_r.
  - destruct (topic_of_entry src entry) as [t|e]; [|now rewrite app_nil_r].
    rewrite (IH (news_list ++ [t])), (IH ([] ++ [t])), <- app_assoc. reflexivity.
Qed.

Lemma append_entries_bound (src : string) (entries : list Entry) :
  length (append_entries src entries []) <= length entries /\
  Forall (fun t => source t = src) (append_entries src entries []).
Proof.
  induction entries as [|entry rest [IHlen IHsrc]]; cbn [append_entries].
  - split; [reflexivity | constructor].
  - destruct (topic_of_entry src entry) as [t|e] eqn:Ht; [|split; [simpl; lia | constructor]].
    rewrite append_entries_app. cbn [app length]. split; [lia|].
    constructor; [|exact IHsrc].
    unfold topic_of_entry in Ht. repeat case_match; try discriminate.
    now injection Ht as <-.
Qed.

Lemma source_topics_bound (W : World) (n : nat) (src : string) :
  length (source_topics W n src) <= 3 /\
  Forall (fun t => source t = src) (source_topics W n src).
Proof.
  unfold source_topics. destruct (feedparser_parse W n src) as [entries|e].
  - destruct (append_entries_bound src (take 3 entries)) as [Hlen Hsrc].
    rewrite length_take in Hlen. split; [lia | exact Hsrc].
  - split; [simpl; lia | constructor].
Qed.

Lemma gather_loop_by_source (W : World) (sources : list string) :
  forall (news_list : list Topic) (st : State),
    fst (gather_loop W sources news_list st) =
      Ok (news_list ++
          concat (imap (fun i src => source_topics W (ticks st + i) src) sources)).
Proof.
  induction sources as [|src rest IH]; intros news_list st; cbn [gather_loop].
  - cbn. now rewrite app_nil_r.
  - rewrite (bind_ok _ _ _ _ _ (fetch_source_run W src news_list st)).
    rewrite IH. cbn [imap concat ticks called]. rewrite Nat.add_0_r.
    f_equal. rewrite app_assoc. f_equal.
    + unfold source_topics. destruct (feedparser_parse W (ticks st) src) as [entries|e].
      * apply append_entries_app.
      * now rewrite app_nil_r.
    + f_equal. apply imap_ext. intros i x _. cbn. f_equal. lia.
Qed.

Lemma gather_news_sources_run (W : World) (st : State) :
  exists st',
    gather_news W st =
      (Ok (source_topics W (ticks st) "https://news.ycombinator.com/rss" ++
           source_topics W (ticks st + 1) "https://www.theverge.com/rss/index.xml" ++
           source_topics W (ticks st + 2) "https://www.wired.com/feed/rss"), st').
Proof.
  pose proof (gather_loop_by_source W news_sources [] st) as Hfst.
  destruct (gather_news_run W st) as [aggregate Hrun].
  unfold gather_news in *. rewrite Hrun in Hfst. cbn [fst] in Hfst. injection Hfst as ->.
  eexists. rewrite Hrun. cbn [news_sources imap concat app]. unfold compose.
  rewrite Nat.add_0_r, app_nil_r. replace (ticks st + 1 + 1) with (ticks st + 2) by lia.
  reflexivity.
Qed.

Lemma gather_news_tagged (W : World) (st : State) (aggregate : list Topic) (st' : State) :
  gather_news W st = (Ok aggregate, st') ->
  Forall (fun t => source t ∈ news_sources) aggregate.
Proof.
  destruct (gather_news_sources_run W st) as (st1 & ->). intros [= <- _].
  rewrite !Forall_app. split_and!;
    (eapply Forall_impl; [apply source_topics_bound|]); intros t ->; repeat constructor.
Qed.

(** X7.  The aggregate of lines 72-90 is what the three feeds contribute,
    one after the other in the order of [news_sources], each feed being
    asked once: a feed whose request raises contributes nothing and takes
    nothing away from the others, a feed that answers contributes the
    topics of its first three entries. *)
Theorem gather_news_by_source (W : World) (st : State) :
  exists st',
    gather_news W st =
      (Ok (source_topics W (ticks st) "https://news.ycombinator.com/rss" ++
           source_topics W (ticks st + 1) "https://www.theverge.com/rss/index.xml" ++
           source_topics W (ticks st + 2) "https://www.wired.com/feed/rss"), st') /\
    (forall n src e, feedparser_parse W n src = Raise e -> source_topics W n src = []) /\
    (forall n src entries,
       feedparser_parse W n src = Ok entries ->
       source_topics W n src = append_entries src (take 3 entries) []).
Proof.
  destruct (gather_news_sources_run W st) as (st' & Hrun). exists st'. split; [exact Hrun|].
  split; intros n src x H; unfold source_topics; now rewrite H.
Qed.

Lemma filter_source_other (src other : string) (l : list Topic) :
  Forall (fun t => source t = other) l -> other <> src ->
  filter (fun t => source t = src) l = [].
Proof.
  intros Hall Hne. induction Hall as [|t l Ht _ IH]; [reflexivity|].
  rewrite filter_cons_False by congruence. exact IH.
Qed.

(** X8.  The aggregate never holds more than nine items, never more than
    three tagged with the same source, and every item is tagged with one of
    the three news sources. *)
Theorem gather_news_bounds (W : World) (st : State) :
  exists aggregate st',
    gather_news W st = (Ok aggregate, st') /\
    length aggregate <= 9 /\
    Forall (fun t => source t ∈ news_sources) aggregate /\
    (forall src, length (filter (fun t => source t = src) aggregate) <= 3).
Proof.
  destruct (gather_news_sources_run W st) as (st' & Hrun).
  eexists _, st'. split; [exact Hrun|].
  pose proof (source_topics_bound W (ticks st) "https://news.ycombinator.com/rss") as [H1 S1].
  pose proof (source_topics_bound W (ticks st + 1) "https://www.theverge.com/rss/index.xml")
    as [H2 S2].
  pose proof (source_topics_bound W (ticks st + 2) "https://www.wired.com/feed/rss") as [H3 S3].
  split_and!.
  - rewrite !length_app. lia.
  - eapply gather_news_tagged, Hrun.
  - intros src. rewrite !filter_app, !length_app.
    pose proof (length_filter (fun t => source t = src)) as Hle.
    destruct (decide ("https://news.ycombinator.com/rss" = src)) as [<-|Hn1].
    + rewrite (filter_source_other _ _ _ S2), (filter_source_other _ _ _ S3) by discriminate.
      etrans; [|exact H1]. simpl. rewrite !Nat.add_0_r. apply Hle.
    + rewrite (filter_source_other _ _ _ S1) by exact Hn1.
      destruct (decide ("https://www.theverge.com/rss/index.xml" = src)) as [<-|Hn2].
      * rewrite (filter_source_other _ _ _ S3) by discriminate.
        etrans; [|exact H2]. simpl. rewrite !Nat.add_0_r. apply Hle.
      * rewrite (filter_source_other _ _ _ S2) by exact Hn2.
        etrans; [|exact H3]. simpl. apply Hle.
Qed.

(** Whenever the selection loop returns, it returns [k] more items, taken
    from the pool and none of them taken twice. *)
Lemma sample_loop_returns {A} (W : World) (k : nat) :
  forall (pool selected : list A) (st : State) (res : list A) (st' : State),
    sample_loop W k pool selected st = (Ok res, st') ->
    exists chosen, res = selected ++ chosen /\ length chosen = k /\ chosen ⊆+ pool.
Proof.
  induction k as [|k IH]; intros pool selected st res st'; cbn [sample_loop].
  - intros [= <- _]. exists []. rewrite app_nil_r. split_and!; [done | done | apply submseteq_nil_l].
  - unfold bind at 1. destruct (randbelow W (length pool) st) as [[j|e] st1]; [|discriminate].
    destruct (pool !! j) as [x|] eqn:Hx; [|discriminate].
    destruct (last pool) as [y|] eqn:Hlast; [|discriminate].
    intros Hrun. apply IH in Hrun as (chosen & -> & Hlen & Hsub).
    exists (x :: chosen). rewrite <- app_assoc. split_and!; [done | simpl; lia |].
    rewrite <- (pool_step pool j x y Hx Hlast). now apply submseteq_skip.
Qed.

Lemma select_news_returns (W : World) (news_list : list Topic) (st : State)
    (topics : list Topic) (st' : State) :
  select_news W news_list st = (Ok topics, st') ->
  1 <= length topics <= 5 /\
  ((news_list = [] /\ topics = [fallback_topic]) \/ (news_list <> [] /\ topics ⊆+ news_list)).
Proof.
  unfold select_news. unfold bind at 1.
  destruct (Nat.ltb_spec 5 (length news_list)) as [Hgt|Hle].
  - unfold random_sample. destruct (Nat.ltb_spec (length news_list) 5); [discriminate|].
    destruct (sample_loop W 5 news_list [] st) as [[l|e] st1] eqn:Hloop; [|discriminate].
    apply sample_loop_returns in Hloop as (chosen & -> & Hlen & Hsub). cbn [app].
    destruct chosen as [|t chosen]; [discriminate Hlen|].
    intros [= <- _]. split; [lia|]. right. split; [|exact Hsub].
    intros ->. simpl in Hgt. lia.
  - unfold ret. destruct news_list as [|t l]; intros [= <- _].
    + split; [simpl; lia | now left].
    + split; [simpl in *; lia | now right].
Qed.

(** X9.  Whenever [fetch_tech_news] returns, it returns between one and
    five topics: the single fallback topic when nothing was fetched, and
    otherwise topics of the aggregate, none taken more often than it was
    fetched, each tagged with one of the news sources. *)
Theorem fetch_tech_news_returns (W : World) (st : State) (topics : list Topic) (st' : State) :
  fetch_tech_news W st = (Ok topics, st') ->
  1 <= length topics <= 5 /\
  exists aggregate st1,
    gather_news W st = (Ok aggregate, st1) /\
    ((aggregate = [] /\ topics = [fallback_topic]) \/
     (aggregate <> [] /\ topics ⊆+ aggregate /\
      Forall (fun t => source t ∈ news_sources) topics)).
Proof.
  intros Hfetch. destruct (gather_news_run W st) as [aggregate Hg].
  pose proof (gather_news_tagged W st _ _ Hg) as Hsrc.
  unfold fetch_tech_news in Hfetch. rewrite (bind_ok _ _ _ _ _ Hg) in Hfetch.
  apply select_news_returns in Hfetch as [Hlen Hcases]. split; [exact Hlen|].
  eexists aggregate, _. split; [exact Hg|].
  destruct Hcases as [[-> ->] | [Hne Hsub]]; [now left | right].
  split_and!; [exact Hne | exact Hsub |].
  rewrite Forall_forall in Hsrc |- *. intros t Ht. apply Hsrc.
  eapply elem_of_submseteq; eassumption.
Qed.

Lemma fetch_tech_news_returns_witness :
  exists topics st',
    fetch_tech_news quiet_world initial_state = (Ok topics, st') /\
    1 <= length topics <= 5.
Proof.
  destruct (fetch_tech_news quiet_world initial_state) as [[topics|e] st'] eqn:Hrun;
    [|vm_compute in Hrun; discriminate Hrun].
  exists topics, st'. split; [reflexivity|].
  exact (proj1 (fetch_tech_news_returns quiet_world initial_state topics st' Hrun)).
Defined.

Lemma append_entries_good (src : string) (good : list Entry) :
  forallb has_title_and_link good = true ->
  length (append_entries src good []) = length good.
Proof.
  induction good as [|entry rest IH]; [reflexivity|]. cbn [forallb append_entries].
  intros [Hentry Hrest]%andb_prop. unfold topic_of_entry.
  unfold has_title_and_link in Hentry.
  destruct (entry_title entry); [|discriminate]. destruct (entry_link entry); [|discriminate].
  rewrite append_entries_app. cbn [app length]. now rewrite IH.
Qed.

(** X10.  An entry without title or link ends the reading of its feed
    (the [AttributeError] reaches the handler of line 86): the entries
    after it are not read, and the topics appended before it, one per
    entry, stay in the list. *)
Theorem append_entries_stops_at_malformed (src : string) (good : list Entry) (bad : Entry)
    (rest : list Entry) (news_list : list Topic) :
  forallb has_title_and_link good = true ->
  has_title_and_link bad = false ->
  append_entries src (good ++ bad :: rest) news_list = append_entries src good news_list /\
  length (append_entries src good news_list) = length news_list + length good.
Proof.
  intros Hgood Hbad. split.
  - clear Hgood. revert news_list.
    induction good as [|entry good IH]; intros news_list; cbn [app append_entries].
    + unfold topic_of_entry. unfold has_title_and_link in Hbad.
      destruct (entry_title bad); [|reflexivity]. destruct (entry_link bad); [discriminate|].
      reflexivity.
    + destruct (topic_of_entry src entry); [apply IH | reflexivity].
  - rewrite append_entries_app, length_app. now rewrite append_entries_good.
Qed.

Lemma append_entries_stops_at_malformed_witness :
  append_entries "feed"
    ([sample_entry "alpha"] ++
     {| entry_title := None; entry_link := Some "l"; entry_summary := None |} ::
     [sample_entry "beta"]) [] =
  append_entries "feed" [sample_entry "alpha"] [] /\
  length (append_entries "feed" [sample_entry "alpha"] []) = 0 + 1.
Proof.
  apply append_entries_stops_at_malformed; reflexivity.
Defined.

(** ** The endpoints *)

Lemma nr_generate_podcast (cfg : Config) (W : World) : never_raises (generate_podcast cfg W).
Proof. unfold generate_podcast. auto with prog. Qed.

(** X1.  With a ledger that is not empty, [get_latest_episode] answers with
    the record appended last: its text, its [audio_url] under the key
    [audio_file], and its [created_at]; nothing changes.  It is the last
    record of the list [list_episodes] returns. *)
Theorem get_latest_episode_returns_last (st : State) (latest : Episode) :
  last (podcast_episodes st) = Some latest ->
  get_latest_episode st =
    (Ok {| resp_podcast_text := podcast_text latest;
           resp_audio_file := audio_url latest;
           resp_created_at := created_at latest |}, st) /\
  list_episodes st = (Ok (podcast_episodes st), st).
Proof.
  intros Hlast. split; [|reflexivity].
  unfold get_latest_episode, try_except, bind, get_episodes.
  destruct (podcast_episodes st) as [|ep l]; [discriminate Hlast|].
  now rewrite Hlast.
Qed.

Lemma get_latest_episode_returns_last_witness :
  get_latest_episode
    {| ticks := 0; podcast_episodes := [sample_episode]; trace := []; files := [] |} =
    (Ok {| resp_podcast_text := podcast_text sample_episode;
           resp_audio_file := audio_url sample_episode;
           resp_created_at := created_at sample_episode |},
     {| ticks := 0; podcast_episodes := [sample_episode]; trace := []; files := [] |}).
Proof.
  exact (proj1 (get_latest_episode_returns_last
                  {| ticks := 0; podcast_episodes := [sample_episode];
                     trace := []; files := [] |} sample_episode eq_refl)).
Defined.

(** X2.  The handler of lines 291-293 is never entered: as
    [generate_podcast] absorbs every exception, [generate_episode] returns
    what [generate_podcast] returns, and never raises the 500. *)
Theorem generate_episode_never_fails (cfg : Config) (W : World) (st : State) :
  generate_episode cfg W st = generate_podcast cfg W st /\
  exists r st', generate_episode cfg W st = (Ok r, st').
Proof.
  destruct (nr_run _ (nr_generate_podcast cfg W) st) as (r & st' & Hrun).
  unfold generate_episode. rewrite (try_ok _ _ _ _ _ Hrun). split; [now rewrite Hrun|].
  now exists r, st'.
Qed.



Lemma get_latest_episode_ledger (st st' : State) :
  podcast_episodes st' = podcast_episodes st ->
  fst (get_latest_episode st') = fst (get_latest_episode st).
Proof.
  intros H. unfold get_latest_episode, try_except, bind, get_episodes, internal_server_error,
    raise, ret. rewrite H.
  destruct (podcast_episodes st); [reflexivity|]. now destruct (last _).
Qed.

(** X4.  A run whose body raises changes neither what
    [get_latest_episode] answers nor what [list_episodes] answers. *)
Theorem failed_run_keeps_answers (cfg : Config) (W : World) (st : State)
    (e : exn) (st1 : State) :
  generate_podcast_body cfg W st = (Raise e, st1) ->
  fst (get_latest_episode (snd (generate_podcast cfg W st))) = fst (get_latest_episode st) /\
  fst (list_episodes (snd (generate_podcast cfg W st))) = fst (list_episodes st).
Proof.
  intros Hbody.
  assert (podcast_episodes (snd (generate_podcast cfg W st)) = podcast_episodes st) as Hl.
  { apply generate_podcast_body_raise in Hbody as Hfetch.
    unfold generate_podcast. rewrite (try_raise _ _ _ _ _ Hbody).
    pose proof (fetch_tech_news_frame W st) as [Hledger _].
    rewrite Hfetch in Hledger. exact Hledger. }
  split; [now apply get_latest_episode_ledger|].
  unfold list_episodes, try_except, get_episodes. cbn [fst]. now rewrite Hl.
Qed.

Lemma failed_run_keeps_answers_witness :
  fst (get_latest_episode
         (snd (generate_podcast sample_config broken_random_world initial_state))) =
  fst (get_latest_episode initial_state).
Proof.
  destruct (generate_podcast_body sample_config broken_random_world initial_state)
    as [[r|e] st1] eqn:Hbody; [vm_compute in Hbody; discriminate Hbody|].
  exact (proj1 (failed_run_keeps_answers sample_config broken_random_world initial_state
                  e st1 Hbody)).
Defined.

(** ** Several runs *)

Lemma length_ledger_append (l : list Episode) (x : Episode) :
  length (ledger_append l x) = Nat.min (S (length l)) 10.
Proof.
  rewrite ledger_append_keep_last, length_keep_last, length_app. cbn [length]. lia.
Qed.

(** X5.  Runs never raise, and however many are made one after the other,
    a ledger of at most ten records stays one: after [n] runs it has at
    most ten records and at most [n] more than before, and [list_episodes]
    returns exactly these. *)
Theorem ledger_bounded_over_runs (cfg : Config) (W : World) (n : nat) : forall st : State,
  length (podcast_episodes st) <= 10 ->
  exists st',
    generate_podcasts cfg W n st = (Ok tt, st') /\
    length (podcast_episodes st') <= 10 /\
    length (podcast_episodes st') <= length (podcast_episodes st) + n /\
    list_episodes st' = (Ok (podcast_episodes st'), st').
Proof.
  induction n as [|n IH]; intros st Hst; cbn [generate_podcasts].
  - exists st. split_and!; [reflexivity | exact Hst | lia | reflexivity].
  - destruct (nr_run _ (nr_generate_podcast cfg W) st) as (r & st1 & Hrun).
    rewrite (bind_ok _ _ _ _ _ Hrun).
    assert (length (podcast_episodes st1) <= 10 /\
            length (podcast_episodes st1) <= S (length (podcast_episodes st))) as [H10 Hgrow].
    { pose proof (generate_podcast_ledger cfg W st) as Hl. rewrite Hrun in Hl. cbn [snd] in Hl.
      destruct Hl as [-> | (ts & rest & fn & url & k & ->)]; [lia|].
      rewrite length_ledger_append. lia. }
    destruct (IH st1 H10) as (st' & Hruns & Hb & Hg & Hlist).
    exists st'. split_and!; [exact Hruns | exact Hb | lia | exact Hlist].
Qed.

Lemma ledger_bounded_over_runs_witness :
  exists st',
    generate_podcasts sample_config quiet_world 12 initial_state = (Ok tt, st') /\
    length (podcast_episodes st') <= 10.
Proof.
  destruct (ledger_bounded_over_runs sample_config quiet_world 12 initial_state)
    as (st' & Hrun & Hlen & _); [simpl; lia|].
  exists st'. split; [exact Hrun | exact Hlen].
Defined.

(** X6.  The branch of lines 225-229 is never taken: no run answers with
    the text "No topics available for this episode."; the text of an answer
    is the error text of line 278 or starts with the opening of lines
    232-233. *)
Theorem no_topics_answer_unreachable (cfg : Config) (W : World) (st : State)
    (r : Response) (st' : State) :
  generate_podcast cfg W st = (Ok r, st') ->
  resp_podcast_text r <> "No topics available for this episode." /\
  (resp_podcast_text r = "Error generating podcast." \/
   exists ts rest, resp_podcast_text r = opening cfg ts +:+ rest).
Proof.
  unfold generate_podcast, try_except.
  destruct (generate_podcast_body cfg W st) as [[r'|e] st1] eqn:Hbody.
  - intros [= <- <-]. destruct (fetch_tech_news W st) as [[topics|e] st0] eqn:Hfetch.
    + destruct (generate_podcast_body_run cfg W st topics st0 Hfetch)
        as (cs & st2 & fn & st3 & url & st4 & answered & st' & _ & _ & _ & _ & Hok & _).
      rewrite Hok in Hbody. injection Hbody as <- _. cbn [resp_podcast_text].
      split; [discriminate|]. right. eauto.
    + unfold generate_podcast_body in Hbody.
      rewrite (bind_raise _ _ _ _ _ Hfetch) in Hbody. discriminate Hbody.
  - unfold bind, datetime_now, call, ret. intros [= <- _]. cbn [degraded_response resp_podcast_text].
    split; [discriminate | now left].
Qed.

Lemma no_topics_answer_unreachable_witness :
  exists r st',
    generate_podcast sample_config quiet_world initial_state = (Ok r, st') /\
    resp_podcast_text r <> "No topics available for this episode.".
Proof.
  destruct (generate_podcast sample_config quiet_world initial_state) as [[r|e] st'] eqn:Hrun;
    [|vm_compute in Hrun; discriminate Hrun].
  exists r, st'. split; [reflexivity|].
  exact (proj1 (no_topics_answer_unreachable sample_config quiet_world initial_state r st' Hrun)).
Defined.

(** ** The calls of a run *)

Section Calls.
Variable cfg : Config.
Variable W : World.

Lemma si_random_choice {A} (seq : list A) : silent (random_choice W seq).
Proof.
  unfold random_choice. destruct seq; [apply si_raise|].
  apply si_bind; [apply si_randbelow|]. intros j. case_match; auto with prog.
Qed.

Lemma si_generate_conversation topic : silent (generate_conversation W topic).
Proof.
  unfold generate_conversation, render_conversation.
  auto 12 using si_random_choice with prog.
Qed.

Lemma si_compose_loop topics : forall acc, silent (compose_loop W topics acc).
Proof.
  induction topics as [|topic rest IH]; intros acc; cbn [compose_loop];
    auto using si_generate_conversation with prog.
Qed.

Lemma si_compose_script ts topics : silent (compose_script cfg W ts topics).
Proof. unfold compose_script. auto using si_compose_loop with prog. Qed.

(** What [text_to_speech] adds to the trace and to the files. *)
Lemma text_to_speech_calls (text filename : string) (st : State) :
  exists events,
    trace (snd (text_to_speech cfg W text (Some filename) st)) = trace st ++ events /\
    (events = [] \/ events = [Synthesize text (VOICE_NAME cfg)] \/
     events = [Synthesize text (VOICE_NAME cfg); SaveAudio filename]) /\
    (truthy (ELEVENLABS_API_KEY cfg) = false -> events = []).
Proof.
  destruct (truthy (ELEVENLABS_API_KEY cfg)) eqn:Hkey.
  - unfold text_to_speech, truthy in *.
    destruct (ELEVENLABS_API_KEY cfg) as [key|]; [|discriminate]. rewrite Hkey.
    unfold try_except, bind, call, write_file, ret. cbn.
    destruct (elevenlabs_generate W (ticks st) text (VOICE_NAME cfg)) as [audio|e]; cbn.
    + destruct (elevenlabs_save W (S (ticks st)) audio filename) as [[]|e]; cbn.
      * eexists. rewrite <- app_assoc. split; [reflexivity|]. split; [auto | discriminate].
      * eexists. split; [reflexivity|]. split; [auto | discriminate].
    + eexists. split; [reflexivity|]. split; [auto | discriminate].
  - rewrite text_to_speech_skipped by exact Hkey. exists []. rewrite app_nil_r. auto.
Qed.

(** What [publish_audio] adds to the trace. *)
Lemma publish_audio_calls (ts audio_filename : string) (st : State) :
  exists events,
    trace (snd (publish_audio cfg W ts audio_filename st)) = trace st ++ events /\
    (events = [] \/
     exists bucket,
       GCS_BUCKET_NAME cfg = Some bucket /\ nonempty bucket = true /\
       file_exists audio_filename st = true /\
       events = [Upload bucket audio_filename
                   ("episodes/podcast_episode_" +:+ ts +:+ ".mp3")]) /\
    (truthy (GCS_BUCKET_NAME cfg) = false -> events = []).
Proof.
  unfold publish_audio. destruct (truthy (GCS_BUCKET_NAME cfg)) eqn:Hb.
  - destruct (GCS_BUCKET_NAME cfg) as [bucket|]; [|discriminate Hb]. cbn in Hb.
    destruct (file_exists audio_filename st) eqn:Hf.
    + rewrite upload_to_gcs_set by assumption. eexists. split; [reflexivity|].
      split; [|discriminate]. right. now exists bucket.
    + rewrite upload_to_gcs_missing by assumption. exists []. rewrite app_nil_r.
      split; [reflexivity|]. split; [now left | discriminate].
  - exists []. rewrite app_nil_r. auto.
Qed.

(** After the upload of the audio, lines 249-274 make no recorded call and
    write no file. *)
Lemma finish_episode_frame (ts episode_content audio_filename : string) (st : State) :
  trace (snd (finish_episode cfg W ts episode_content audio_filename st)) =
    trace (snd (publish_audio cfg W ts audio_filename st)) /\
  files (snd (finish_episode cfg W ts episode_content audio_filename st)) =
    files (snd (publish_audio cfg W ts audio_filename st)).
Proof.
  destruct (nr_run _ (nr_publish_audio cfg W ts audio_filename) st) as (url & st1 & Hpub).
  unfold finish_episode. rewrite (bind_ok _ _ _ _ _ Hpub), Hpub. cbv zeta.
  unfold bind at 1. unfold datetime_now at 1. unfold call at 1.
  unfold bind at 1. unfold get_episodes at 1. cbn [podcast_episodes ticks trace files called].
  unfold bind at 1. unfold set_episodes at 1. cbn [podcast_episodes ticks trace files called].
  unfold bind at 1. unfold get_episodes at 1. cbn [podcast_episodes ticks trace files called].
  match goal with |- context [bind (generate_rss_feed cfg W ?eps) _ ?s] =>
    rewrite (bind_ok _ _ _ _ _ (generate_rss_feed_skips cfg W eps s)) end.
  split; reflexivity.
Qed.

(** A run whose fetch returns is the four steps one after the other. *)
Lemma generate_podcast_body_steps (st : State) (topics : list Topic) (st1 : State) :
  fetch_tech_news W st = (Ok topics, st1) ->
  let ts := strftime (clock W (ticks st1)) in
  let path := path_join (PODCAST_DIR cfg) ("podcast_episode_" +:+ ts +:+ ".mp3") in
  exists episode_content st2 audio_filename st3,
    compose_script cfg W ts topics (snd (datetime_now W st1)) = (Ok episode_content, st2) /\
    text_to_speech cfg W episode_content (Some path) st2 = (Ok audio_filename, st3) /\
    generate_podcast_body cfg W st =
      finish_episode cfg W ts episode_content audio_filename st3.
Proof.
  intros Hfetch ts path.
  assert (topics <> []) as Hne.
  { unfold fetch_tech_news in Hfetch. destruct (gather_news_run W st) as [agg Hg].
    rewrite (bind_ok _ _ _ _ _ Hg) in Hfetch.
    eapply select_news_cases, Hfetch. }
  destruct (nr_run _ (nr_compose_script cfg W ts topics) (snd (datetime_now W st1)))
    as (content & st2 & Hcompose).
  destruct (nr_run _ (nr_text_to_speech cfg W content (Some path)) st2) as (fn & st3 & Htts).
  exists content, st2, fn, st3. split_and!; [exact Hcompose | exact Htts |].
  unfold generate_podcast_body. rewrite (bind_ok _ _ _ _ _ Hfetch).
  destruct topics as [|topic rest]; [congruence|].
  unfold bind at 1. unfold datetime_now at 1. unfold call at 1.
  fold ts. fold path.
  unfold datetime_now, call in Hcompose. cbn [snd] in Hcompose.
  now rewrite (bind_ok _ _ _ _ _ Hcompose), (bind_ok _ _ _ _ _ Htts).
Qed.

End Calls.

(** X14.  Whatever the configuration and the world, the calls of a run
    are the three feed requests, then at most one synthesis with the
    configured voice and at most one saved file at
    PODCAST_DIR/podcast_episode_<ts>.mp3, then at most one upload, into the
    configured bucket under "episodes/": no synthesis without a credential,
    no upload without a bucket, and never a feed file. *)
Theorem generate_podcast_calls (cfg : Config) (W : World) (st : State) :
  exists synthesis uploads,
    trace (snd (generate_podcast cfg W st)) =
      trace st ++ (FeedParse <$> news_sources) ++ synthesis ++ uploads /\
    (synthesis = [] \/
     (exists text, synthesis = [Synthesize text (VOICE_NAME cfg)]) \/
     (exists text ts,
        synthesis =
          [Synthesize text (VOICE_NAME cfg);
           SaveAudio (path_join (PODCAST_DIR cfg) ("podcast_episode_" +:+ ts +:+ ".mp3"))])) /\
    (uploads = [] \/
     exists bucket audio_filename ts,
       GCS_BUCKET_NAME cfg = Some bucket /\ nonempty bucket = true /\
       uploads = [Upload bucket audio_filename
                    ("episodes/podcast_episode_" +:+ ts +:+ ".mp3")]) /\
    (truthy (ELEVENLABS_API_KEY cfg) = false -> synthesis = []) /\
    (truthy (GCS_BUCKET_NAME cfg) = false -> uploads = []).
Proof.
  pose proof (fetch_tech_news_frame W st) as (_ & Htrace & _).
  unfold generate_podcast, try_except.
  destruct (generate_podcast_body cfg W st) as [[r|e] st'] eqn:Hbody.
  - destruct (fetch_tech_news W st) as [[topics|e] st1] eqn:Hfetch.
    2:{ unfold generate_podcast_body in Hbody.
        rewrite (bind_raise _ _ _ _ _ Hfetch) in Hbody. discriminate Hbody. }
    cbn [snd] in Htrace.
    destruct (generate_podcast_body_steps cfg W st topics st1 Hfetch)
      as (content & st2 & fn & st3 & Hcompose & Htts & Hsteps).
    pose proof (si_compose_script cfg W (strftime (clock W (ticks st1))) topics
                  (snd (datetime_now W st1))) as [Hsilent _].
    rewrite Hcompose in Hsilent. cbn [snd datetime_now call called trace] in Hsilent.
    destruct (text_to_speech_calls cfg W content
                (path_join (PODCAST_DIR cfg)
                   ("podcast_episode_" +:+ strftime (clock W (ticks st1)) +:+ ".mp3")) st2)
      as (synthesis & Hs & Hshape & Hnokey).
    rewrite Htts in Hs. cbn [snd] in Hs.
    destruct (publish_audio_calls cfg W (strftime (clock W (ticks st1))) fn st3)
      as (uploads & Hu & Hushape & Hnobucket).
    pose proof (finish_episode_frame cfg W (strftime (clock W (ticks st1))) content fn st3)
      as [Hframe _].
    rewrite <- Hsteps, Hbody in Hframe. cbn [snd] in Hframe.
    exists synthesis, uploads. cbn [snd].
    split.
    { rewrite Hframe, Hu, Hs, Hsilent, Htrace, <- !app_assoc. reflexivity. }
    split_and!; [| | exact Hnokey | exact Hnobucket].
    + destruct Hshape as [-> | [-> | ->]]; eauto.
    + destruct Hushape as [-> | (bucket & Hb & Hne & _ & ->)]; [now left | right].
      eauto 10.
  - apply generate_podcast_body_raise in Hbody as Hfetch.
    rewrite Hfetch in Htrace. cbn [snd] in Htrace.
    exists [], []. unfold bind, datetime_now, call, ret. cbn [snd trace called].
    rewrite Htrace, !app_nil_r. split_and!; auto.
Qed.

Section Published.
Variable cfg : Config.
Variable W : World.

(** With a key and both calls answered, the audio is saved where asked. *)
Lemma text_to_speech_saved (text filename audio : string) (st : State) :
  truthy (ELEVENLABS_API_KEY cfg) = true ->
  elevenlabs_generate W (ticks st) text (VOICE_NAME cfg) = Ok audio ->
  elevenlabs_save W (S (ticks st)) audio filename = Ok tt ->
  text_to_speech cfg W text (Some filename) st =
    (Ok filename,
     {| ticks := S (S (ticks st));
        podcast_episodes := podcast_episodes st;
        trace := trace st ++ [Synthesize text (VOICE_NAME cfg); SaveAudio filename];
        files := filename :: files st |}).
Proof.
  unfold text_to_speech, truthy. destruct (ELEVENLABS_API_KEY cfg) as [key|]; [|discriminate].
  intros -> Hgen Hsave. unfold try_except, bind, call, write_file, ret. cbn.
  rewrite Hgen. cbn. rewrite Hsave. cbn. now rewrite <- app_assoc.
Qed.

(** With a bucket, the file there and the upload answered, lines 243-274
    record and answer with the public URL, unless it is empty. *)
Lemma finish_episode_uploaded (ts episode_content audio_filename bucket public_url : string)
    (st : State) :
  GCS_BUCKET_NAME cfg = Some bucket -> nonempty bucket = true ->
  file_exists audio_filename st = true ->
  storage_upload W (ticks st) bucket audio_filename
    ("episodes/podcast_episode_" +:+ ts +:+ ".mp3") = Ok public_url ->
  let final_url := if nonempty public_url then public_url else audio_filename in
  finish_episode cfg W ts episode_content audio_filename st =
    (Ok {| resp_podcast_text := episode_content;
           resp_audio_file := final_url;
           resp_created_at := isoformat (clock W (ticks st + 3)) |},
     {| ticks := ticks st + 4;
        podcast_episodes :=
          ledger_append (podcast_episodes st)
            {| podcast_text := episode_content;
               audio_file := audio_filename;
               audio_url := final_url;
               timestamp := ts;
               created_at := isoformat (clock W (ticks st + 1)) |};
        trace := trace st ++
                 [Upload bucket audio_filename
                    ("episodes/podcast_episode_" +:+ ts +:+ ".mp3")];
        files := files st |}).
Proof.
  intros Hb Hne Hf Hup final_url.
  assert (publish_audio cfg W ts audio_filename st =
            (Ok (Some public_url),
             called (Some (Upload bucket audio_filename
                             ("episodes/podcast_episode_" +:+ ts +:+ ".mp3"))) st)) as Hpub.
  { unfold publish_audio. rewrite Hb. cbn [truthy]. rewrite Hne.
    rewrite upload_to_gcs_set by assumption. now rewrite Hup. }
  unfold finish_episode. rewrite (bind_ok _ _ _ _ _ Hpub). cbv zeta.
  unfold bind at 1. unfold datetime_now at 1. unfold call at 1.
  unfold bind at 1. unfold get_episodes at 1. cbn [podcast_episodes ticks trace files called].
  unfold bind at 1. unfold set_episodes at 1. cbn [podcast_episodes ticks trace files called].
  unfold bind at 1. unfold get_episodes at 1. cbn [podcast_episodes ticks trace files called].
  match goal with |- context [bind (generate_rss_feed cfg W ?eps) _ ?s] =>
    rewrite (bind_ok _ _ _ _ _ (generate_rss_feed_skips cfg W eps s)) end.
  unfold bind, datetime_now, call, ret. cbn [podcast_episodes ticks trace files called final_url_of].
  replace (ticks st + 1) with (S (ticks st)) by lia.
  replace (ticks st + 3) with (S (S (S (ticks st)))) by lia.
  replace (ticks st + 4) with (S (S (S (S (ticks st))))) by lia.
  reflexivity.
Qed.

End Published.

(** X11.  With a credential, the synthesis answered and the audio saved,
    [text_to_speech] returns the destination it was given; afterwards the
    file exists there, the synthesis call and the saved file are on record,
    and the ledger is as before. *)
Theorem text_to_speech_saves (cfg : Config) (W : World) (text filename audio : string)
    (st : State) :
  truthy (ELEVENLABS_API_KEY cfg) = true ->
  elevenlabs_generate W (ticks st) text (VOICE_NAME cfg) = Ok audio ->
  elevenlabs_save W (S (ticks st)) audio filename = Ok tt ->
  exists st',
    text_to_speech cfg W text (Some filename) st = (Ok filename, st') /\
    file_exists filename st' = true /\
    trace st' = trace st ++ [Synthesize text (VOICE_NAME cfg); SaveAudio filename] /\
    podcast_episodes st' = podcast_episodes st.
Proof.
  intros Hkey Hgen Hsave. eexists. split; [now apply (text_to_speech_saved cfg W _ _ audio)|].
  split_and!; [|reflexivity|reflexivity].
  apply bool_decide_eq_true. left.
Qed.

Lemma text_to_speech_saves_witness :
  exists st',
    text_to_speech keyed_config studio_world "Welcome." (Some "/tmp/episodes/e.mp3")
      initial_state = (Ok "/tmp/episodes/e.mp3", st') /\
    file_exists "/tmp/episodes/e.mp3" st' = true.
Proof.
  destruct (text_to_speech_saves keyed_config studio_world "Welcome." "/tmp/episodes/e.mp3"
              "mp3 data" initial_state eq_refl eq_refl eq_refl) as (st' & Hrun & Hfile & _).
  exists st'. split; [exact Hrun | exact Hfile].
Defined.

(** X12.  With a bucket configured, the audio file present and the upload
    answered, lines 243-274 answer with the public URL (with the local path
    when the URL is empty), append a record whose [audio_url] is that
    reference and whose [audio_file] is the local path, and make exactly
    one recorded call, the upload to "episodes/podcast_episode_<ts>.mp3". *)
Theorem finish_episode_publishes (cfg : Config) (W : World)
    (ts episode_content audio_filename bucket public_url : string) (st : State) :
  GCS_BUCKET_NAME cfg = Some bucket -> nonempty bucket = true ->
  file_exists audio_filename st = true ->
  storage_upload W (ticks st) bucket audio_filename
    ("episodes/podcast_episode_" +:+ ts +:+ ".mp3") = Ok public_url ->
  exists r st' latest,
    finish_episode cfg W ts episode_content audio_filename st = (Ok r, st') /\
    resp_audio_file r = (if nonempty public_url then public_url else audio_filename) /\
    last (podcast_episodes st') = Some latest /\
    audio_url latest = resp_audio_file r /\
    audio_file latest = audio_filename /\
    trace st' = trace st ++
      [Upload bucket audio_filename ("episodes/podcast_episode_" +:+ ts +:+ ".mp3")].
Proof.
  intros Hb Hne Hf Hup. eexists _, _, _.
  split; [now apply (finish_episode_uploaded cfg W _ _ _ bucket public_url)|].
  cbn [resp_audio_file podcast_episodes trace].
  split_and!; [reflexivity | apply last_ledger_append | reflexivity | reflexivity | reflexivity].
Qed.

Lemma finish_episode_publishes_witness :
  exists r st',
    finish_episode keyed_config uploading_world "20240309_080005" "Welcome."
      "audio_generation_failed.mp3" stale_file_state = (Ok r, st') /\
    resp_audio_file r =
      "https://storage.googleapis.com/podcast-bucket/episodes/podcast_episode_20240309_080005.mp3".
Proof.
  destruct (finish_episode_publishes keyed_config uploading_world "20240309_080005" "Welcome."
              "audio_generation_failed.mp3" "podcast-bucket"
              "https://storage.googleapis.com/podcast-bucket/episodes/podcast_episode_20240309_080005.mp3"
              stale_file_state eq_refl eq_refl eq_refl eq_refl)
    as (r & st' & latest & Hrun & Hurl & _).
  exists r, st'. split; [exact Hrun | exact Hurl].
Defined.

(** X13.  With a credential and a bucket configured and the synthesis and
    storage services answering, a run whose fetch returns saves the audio
    at PODCAST_DIR/podcast_episode_<ts>.mp3, uploads that file and answers
    with the URL storage returned; the record appended carries the text,
    the local path, that URL and the timestamp; the calls made are the
    three feed requests, one synthesis of the whole script and one upload,
    in this order. *)
Theorem generate_podcast_publishes (cfg : Config) (W : World) (st : State)
    (topics : list Topic) (st1 : State) (bucket : string) :
  truthy (ELEVENLABS_API_KEY cfg) = true ->
  GCS_BUCKET_NAME cfg = Some bucket -> nonempty bucket = true ->
  (forall n text voice, exists audio, elevenlabs_generate W n text voice = Ok audio) ->
  (forall n audio filename, elevenlabs_save W n audio filename = Ok tt) ->
  (forall n b src dst, exists url, storage_upload W n b src dst = Ok url /\ nonempty url = true) ->
  fetch_tech_news W st = (Ok topics, st1) ->
  let ts := strftime (clock W (ticks st1)) in
  let path := path_join (PODCAST_DIR cfg) ("podcast_episode_" +:+ ts +:+ ".mp3") in
  exists r st' latest,
    generate_podcast cfg W st = (Ok r, st') /\
    nonempty (resp_audio_file r) = true /\
    file_exists path st' = true /\
    last (podcast_episodes st') = Some latest /\
    podcast_text latest = resp_podcast_text r /\
    audio_file latest = path /\
    audio_url latest = resp_audio_file r /\
    timestamp latest = ts /\
    exists n,
      storage_upload W n bucket path ("episodes/podcast_episode_" +:+ ts +:+ ".mp3") =
        Ok (resp_audio_file r) /\
      trace st' =
        trace st ++ (FeedParse <$> news_sources) ++
        [Synthesize (resp_podcast_text r) (VOICE_NAME cfg);
         SaveAudio path;
         Upload bucket path ("episodes/podcast_episode_" +:+ ts +:+ ".mp3")].
Proof.
  intros Hkey Hb Hne Hgen Hsave Hup Hfetch ts path.
  pose proof (fetch_tech_news_frame W st) as (_ & Htrace & _).
  rewrite Hfetch in Htrace. cbn [snd] in Htrace.
  destruct (generate_podcast_body_steps cfg W st topics st1 Hfetch)
    as (content & st2 & fn & st3 & Hcompose & Htts & Hsteps).
  fold ts in Hcompose, Htts, Hsteps. fold path in Htts.
  pose proof (si_compose_script cfg W ts topics (snd (datetime_now W st1))) as [Hsilent _].
  rewrite Hcompose in Hsilent. cbn [snd datetime_now call called trace] in Hsilent.
  destruct (Hgen (ticks st2) content (VOICE_NAME cfg)) as [audio Haudio].
  rewrite (text_to_speech_saved cfg W content path audio st2 Hkey Haudio (Hsave _ _ _)) in Htts.
  apply ok_pair_inj in Htts as [<- <-].
  match type of Hsteps with _ = finish_episode _ _ _ _ _ ?s => set (s3 := s) in * end.
  destruct (Hup (ticks s3) bucket path ("episodes/podcast_episode_" +:+ ts +:+ ".mp3"))
    as (url & Hurl & Hnonempty).
  assert (file_exists path s3 = true) as Hfile by (apply bool_decide_eq_true; left).
  rewrite (finish_episode_uploaded cfg W ts content path bucket url s3 Hb Hne Hfile Hurl)
    in Hsteps.
  cbv zeta in Hsteps. rewrite Hnonempty in Hsteps.
  unfold generate_podcast. rewrite (try_ok _ _ _ _ _ Hsteps).
  eexists _, _, _. split; [reflexivity|].
  cbn [resp_audio_file resp_podcast_text podcast_episodes trace files].
  split_and!; [exact Hnonempty | exact Hfile | apply last_ledger_append | reflexivity
              | reflexivity | reflexivity | reflexivity |].
  exists (ticks s3). split; [exact Hurl|].
  cbn [s3 trace]. rewrite Hsilent, Htrace, <- !app_assoc. reflexivity.
Qed.

Lemma generate_podcast_publishes_witness :
  exists r st',
    generate_podcast keyed_config studio_world initial_state = (Ok r, st') /\
    nonempty (resp_audio_file r) = true /\
    file_exists "/tmp/episodes/podcast_episode_20240309_080005.mp3" st' = true.
Proof.
  destruct (fetch_tech_news studio_world initial_state) as [[topics|e] st1] eqn:Hfetch;
    [|vm_compute in Hfetch; discriminate Hfetch].
  destruct (generate_podcast_publishes keyed_config studio_world initial_state topics st1
              "podcast-bucket" eq_refl eq_refl eq_refl)
    as (r & st' & latest & Hrun & Hurl & Hfile & _).
  - intros. now eexists.
  - reflexivity.
  - intros. eexists. split; reflexivity.
  - exact Hfetch.
  - exists r, st'. split_and!; [exact Hrun | exact Hurl | exact Hfile].
Defined.
